(** * KnowYourSlang multiplayer game server: a shallow embedding

    The development follows [server/game_server.py].  The class
    [GameServer] keeps two dictionaries, [games] and [connections]; every
    coroutine of the class is embedded as a function in a small state and
    exception monad over the server state.  A coroutine that reaches
    [asyncio.sleep] returns the continuation it will resume with, and an
    event-loop step function ([step]) resumes sleepers when the clock has
    reached their wake-up time.

    Python dictionaries keep insertion order, and the code depends on it
    (broadcast order, the winner picked by [max]); they are embedded as
    association lists with Python's update discipline.

    The event loop is cooperative: between two suspensions a coroutine
    runs alone.  The suspensions of the embedding are the wait for the
    next frame of a connection and [asyncio.sleep].  A [websocket.send]
    may give control away as well; the embedding follows the runs in
    which it does not, so that a broadcast is one uninterrupted sequence
    of sends.  What a method assigns before its first send is the same
    in every run.  The frames after the first one and what a method does
    behind a broadcast are those of the runs that are followed: in a run
    where a send is suspended and the roster changes meanwhile, the
    iteration of [broadcast] raises and the rest of the method is
    skipped.  Time is counted in whole units of the two delays (20 and
    3). *)

From Stdlib Require Import ZArith Lia Ascii String Sorted.
From stdpp Require Import base list strings.

Open Scope string_scope.
Open Scope Z_scope.
Open Scope nat_scope.
Open Scope list_scope.

(** ** Python dictionaries *)

Abbreviation dict K V := (list (K * V)) (only parsing).

Section Dict.
Context {K V : Type} `{EqDecision K}.

(** [d.get(k)] *)
Fixpoint dict_get (k : K) (d : dict K V) : option V :=
  match d with
  | [] => None
  | (k', v) :: d' => if decide (k = k') then Some v else dict_get k d'
  end.

(** [k in d] *)
Definition dict_mem (k : K) (d : dict K V) : bool :=
  match dict_get k d with Some _ => true | None => false end.

(** [d[k] = v]: an existing key keeps its position, a new one goes last. *)
Fixpoint dict_set (k : K) (v : V) (d : dict K V) : dict K V :=
  match d with
  | [] => [(k, v)]
  | (k', v') :: d' =>
      if decide (k = k') then (k, v) :: d' else (k', v') :: dict_set k v d'
  end.

(** [del d[k]] on a key that is present. *)
Fixpoint dict_del (k : K) (d : dict K V) : dict K V :=
  match d with
  | [] => []
  | (k', v') :: d' =>
      if decide (k = k') then d' else (k', v') :: dict_del k d'
  end.

Definition dict_keys (d : dict K V) : list K := d.*1.
End Dict.

(** ** Data model *)

(** A websocket object; the dictionaries hash it by identity. *)
Definition ws := nat.

Record QuizItem := mkQuizItem {
  term : string;
  meaning : string;
  distractors : list string;
  difficulty : string
}.

Record Player := mkPlayer {
  websocket : ws;
  ready : bool
}.

Inductive State := lobby | playing | finished.

Record Game := mkGame {
  players : list (string * Player);
  state : State;
  host : string;
  current_question : option QuizItem;
  scores : list (string * Z);
  question_index : nat;
  questions : list QuizItem
}.

(** Outbound frames, one constructor per value of the [type] field. *)
Inductive Msg :=
| MGameState (ps : list (string * bool)) (sc : list (string * Z))
             (game_state : State) (h : string)
| MNewQuestion (t : string) (choices : list string)
               (time_limit : nat) (question_number : nat)
| MAnswerResult (player : string) (correct : bool) (correct_answer : string)
| MGameOver (sc : list (string * Z)) (winner : option string)
| MPlayerLeft (player_name : string).

(** Inbound frames after [json.loads]: a frame that does not parse to an
    object makes [json.loads] or [data.get] raise; otherwise only the
    fields [action] and [answer] are read.  [answer] is [None] for every
    value that is not a string, none of which compares equal to a
    meaning. *)
Inductive Inbound :=
| Unparsable
| Request (action : option string) (answer : option string).

(** The code that follows an [asyncio.sleep]. *)
Inductive Cont :=
| KTimeout (game_id : string)   (* question_timeout after sleep(20) *)
| KAdvance (game_id : string).  (* next_question after sleep(3) *)

(** What a coroutine does when it gives control back. *)
Inductive Susp :=
| Done
| Sleep (delay : nat) (k : Cont).

(** A sleeping coroutine: wake-up time, the connection whose handler is
    asleep ([None] for a task made by [asyncio.create_task]), and the
    code to resume. *)
Record Sleeper := mkSleeper {
  due : nat;
  owner : option ws;
  cont : Cont
}.

Record Server := mkServer {
  games : list (string * Game);
  connections : list (ws * (string * string));
  (* the environment of the object *)
  closed : list ws;             (* websockets whose [closed] is true *)
  now : nat;                    (* the event loop's clock *)
  sleeping : list Sleeper;      (* coroutines inside asyncio.sleep *)
  outbox : list (ws * Msg);     (* frames given to websocket.send, in order *)
  rng : list nat                (* coming outputs of the random generator *)
}.

#[global] Instance QuizItem_eq_dec : EqDecision QuizItem.
Proof. solve_decision. Defined.
#[global] Instance Player_eq_dec : EqDecision Player.
Proof. solve_decision. Defined.
#[global] Instance State_eq_dec : EqDecision State.
Proof. solve_decision. Defined.
#[global] Instance Msg_eq_dec : EqDecision Msg.
Proof. solve_decision. Defined.

(** Field updates of the mutable objects. *)
Definition with_players (ps : list (string * Player)) (g : Game) : Game :=
  mkGame ps (state g) (host g) (current_question g) (scores g)
         (question_index g) (questions g).
Definition with_state (st : State) (g : Game) : Game :=
  mkGame (players g) st (host g) (current_question g) (scores g)
         (question_index g) (questions g).
Definition with_current_question (q : option QuizItem) (g : Game) : Game :=
  mkGame (players g) (state g) (host g) q (scores g)
         (question_index g) (questions g).
Definition with_scores (sc : list (string * Z)) (g : Game) : Game :=
  mkGame (players g) (state g) (host g) (current_question g) sc
         (question_index g) (questions g).
Definition with_question_index (i : nat) (g : Game) : Game :=
  mkGame (players g) (state g) (host g) (current_question g) (scores g)
         i (questions g).

Definition with_games (gs : list (string * Game)) (s : Server) : Server :=
  mkServer gs (connections s) (closed s) (now s) (sleeping s) (outbox s) (rng s).
Definition with_connections (cs : list (ws * (string * string))) (s : Server) : Server :=
  mkServer (games s) cs (closed s) (now s) (sleeping s) (outbox s) (rng s).
Definition with_closed (cl : list ws) (s : Server) : Server :=
  mkServer (games s) (connections s) cl (now s) (sleeping s) (outbox s) (rng s).
Definition with_now (t : nat) (s : Server) : Server :=
  mkServer (games s) (connections s) (closed s) t (sleeping s) (outbox s) (rng s).
Definition with_sleeping (sl : list Sleeper) (s : Server) : Server :=
  mkServer (games s) (connections s) (closed s) (now s) sl (outbox s) (rng s).
Definition with_outbox (ob : list (ws * Msg)) (s : Server) : Server :=
  mkServer (games s) (connections s) (closed s) (now s) (sleeping s) ob (rng s).
Definition with_rng (r : list nat) (s : Server) : Server :=
  mkServer (games s) (connections s) (closed s) (now s) (sleeping s) (outbox s) r.

(** ** The monad of the coroutines' bodies

    State is the server; [Raise] is a Python exception.  What was mutated
    before an exception stays mutated. *)

Inductive Outcome (A : Type) :=
| Ret (a : A)
| Raise.
Arguments Ret {A} a.
Arguments Raise {A}.

Definition M (A : Type) : Type := Server -> Outcome A * Server.

Definition ret {A} (a : A) : M A := fun s => (Ret a, s).
Definition raise {A} : M A := fun s => (Raise, s).
Definition bind {A B} (m : M A) (f : A -> M B) : M B :=
  fun s => match m s with
           | (Ret a, s') => f a s'
           | (Raise, s') => (Raise, s')
           end.
(** [try: m except Exception: h] *)
Definition try_except {A} (m : M A) (h : M A) : M A :=
  fun s => match m s with
           | (Raise, s') => h s'
           | r => r
           end.
Definition get_server : M Server := fun s => (Ret s, s).
Definition modify (f : Server -> Server) : M unit := fun s => (Ret tt, f s).

(** stdpp's monad notation: [x ← m; k] and [m;; k]. *)
#[global] Instance M_ret : MRet M := @ret.
#[global] Instance M_bind : MBind M := fun A B f m => bind m f.

(** ** Helpers standing for Python built-ins *)

(** [path.split('/')] *)
Fixpoint split_slash (s : string) : list string :=
  match s with
  | EmptyString => [EmptyString]
  | String c s' =>
      if decide (c = "/"%char) then EmptyString :: split_slash s'
      else match split_slash s' with
           | h :: t => String c h :: t
           | [] => [String c EmptyString]
           end
  end.

(** [max(items, key=lambda x: x[1])]: the running best is replaced only
    by a strictly larger key, so the first maximal item is returned. *)
Fixpoint max_by_value (best : string * Z) (items : list (string * Z)) : string * Z :=
  match items with
  | [] => best
  | x :: items' =>
      if (best.2 <? x.2)%Z then max_by_value x items' else max_by_value best items'
  end.

Definition py_max (items : list (string * Z)) : option (string * Z) :=
  match items with
  | [] => None
  | x :: items' => Some (max_by_value x items')
  end.

(** [x[i], x[j] = x[j], x[i]] *)
Definition swap {A} (i j : nat) (x : list A) : list A :=
  match x !! i, x !! j with
  | Some a, Some b => <[j:=a]> (<[i:=b]> x)
  | _, _ => x
  end.

(** [random._randbelow(n)]: the next output of the generator, below [n]. *)
Definition randbelow (n : nat) : M nat :=
  fun s => match rng s with
           | [] => (Ret 0, s)
           | r :: rs => (Ret (r mod n), with_rng rs s)
           end.

(** [random.shuffle(x)]:
    [for i in reversed(range(1, len(x))): j = randbelow(i + 1); swap] *)
Fixpoint shuffle_from {A} (i : nat) (x : list A) : M (list A) :=
  match i with
  | 0 => ret x
  | S i' => j ← randbelow (S i); shuffle_from i' (swap i j x)
  end.

Definition shuffle {A} (x : list A) : M (list A) :=
  shuffle_from (length x - 1) x.

(** [await websocket.send(json.dumps(message))] in a run where the send
    returns without giving control away: the frame goes to the outbox.
    A failing send is swallowed by the caller and changes nothing
    else. *)
Definition send (w : ws) (message : Msg) : M unit :=
  modify (fun s => with_outbox (outbox s ++ [(w, message)]) s).

(** [asyncio.create_task(coro)] for a coroutine that starts with
    [asyncio.sleep(delay)]. *)
Definition create_task (delay : nat) (k : Cont) : M unit :=
  modify (fun s => with_sleeping (sleeping s ++ [mkSleeper (now s + delay) None k]) s).

(** [self.games[game_id]], raising [KeyError] on a missing key. *)
Definition get_game (game_id : string) : M Game :=
  fun s => match dict_get game_id (games s) with
           | Some g => (Ret g, s)
           | None => (Raise, s)
           end.

(** A mutation of the game object that [self.games[game_id]] refers to. *)
Definition update_game (game_id : string) (f : Game -> Game) : M unit :=
  game ← get_game game_id;
  modify (fun s => with_games (dict_set game_id (f game) (games s)) s).

(** ** The methods of [GameServer] *)

Definition empty_server (r : list nat) : Server :=
  mkServer [] [] [] 0 [] [] r.

Definition load_questions : list QuizItem :=
  [ mkQuizItem "awe" "friendly greeting; hey/what's up"
               ["goodbye"; "please"; "thank you"] "easy";
    mkQuizItem "braai" "barbecue; cook meat over coals"
               ["bake bread"; "stir-fry veggies"; "drink tea"] "easy";
    mkQuizItem "howzit" "hello; how are you?"
               ["goodbye"; "please"; "congrats"] "easy" ].

(** The loop of [broadcast] over [game['players'].items()].  No send of
    the embedding gives control away, so the roster cannot change under
    the loop and the loop walks the roster it started with.  In the
    source a roster that changes while a send is suspended makes the
    iteration raise, and the exception leaves [broadcast], whose [try]
    is around the send alone; those runs are not followed. *)
Fixpoint send_all (message : Msg) (exclude : list ws)
    (ps : list (string * Player)) : M unit :=
  match ps with
  | [] => ret tt
  | (player_name, player_data) :: ps' =>
      s ← get_server;
      (if negb (bool_decide (websocket player_data ∈ exclude))
          && negb (bool_decide (websocket player_data ∈ closed s))
       then send (websocket player_data) message
       else ret tt);;
      send_all message exclude ps'
  end.

Definition broadcast (message : Msg) (game_id : string) (exclude : list ws) : M unit :=
  s ← get_server;
  match dict_get game_id (games s) with
  | None => ret tt
  | Some game => send_all message exclude (players game)
  end.

Definition broadcast_game_state (game_id : string) : M unit :=
  game ← get_game game_id;
  broadcast (MGameState (map (fun p => (p.1, ready p.2)) (players game))
                        (scores game) (state game) (host game))
            game_id [].

Definition winner_of (sc : list (string * Z)) : option string :=
  match py_max sc with
  | Some x => Some x.1
  | None => None
  end.

Definition end_game (game_id : string) : M unit :=
  update_game game_id (with_state finished);;
  game ← get_game game_id;
  broadcast (MGameOver (scores game) (winner_of (scores game))) game_id [].

Definition next_question (game_id : string) : M unit :=
  game ← get_game game_id;
  if bool_decide (length (questions game) <= question_index game)
  then end_game game_id
  else
    match questions game !! question_index game with
    | None => raise
    | Some question =>
        update_game game_id (with_current_question (Some question));;
        update_game game_id (fun g => with_question_index (question_index g + 1) g);;
        choices ← shuffle (meaning question :: take 3 (distractors question));
        game ← get_game game_id;
        broadcast (MNewQuestion (term question) choices 20 (question_index game))
                  game_id [];;
        create_task 20 (KTimeout game_id)
    end.

(** [for player in game['scores']: game['scores'][player] = 0] *)
Definition reset_scores (sc : list (string * Z)) : list (string * Z) :=
  foldl (fun d player => dict_set player 0%Z d) sc (dict_keys sc).

Definition start_game (game_id : string) : M unit :=
  update_game game_id (with_state playing);;
  update_game game_id (with_question_index 0);;
  update_game game_id (fun g => with_scores (reset_scores (scores g)) g);;
  next_question game_id.

Definition reset_game (game_id : string) : M unit :=
  update_game game_id (with_state lobby);;
  update_game game_id (with_current_question None);;
  update_game game_id (with_question_index 0);;
  update_game game_id (fun g => with_scores (reset_scores (scores g)) g);;
  broadcast_game_state game_id.

(** [question_timeout] from the end of [asyncio.sleep(20)] to the start
    of [asyncio.sleep(3)]. *)
Definition question_timeout (game_id : string) : M Susp :=
  s ← get_server;
  match dict_get game_id (games s) with
  | None => ret Done
  | Some game =>
      match state game, current_question game with
      | playing, Some question =>
          broadcast (MAnswerResult "System" false (meaning question)) game_id [];;
          ret (Sleep 3 (KAdvance game_id))
      | _, _ => ret Done
      end
  end.

(** [handle_answer] up to [asyncio.sleep(3)]; [next_question] follows the
    sleep. *)
Definition handle_answer (game_id player_name : string) (answer : option string) : M Susp :=
  game ← get_game game_id;
  match current_question game with
  | None => ret Done
  | Some question =>
      let is_correct := bool_decide (answer = Some (meaning question)) in
      (if is_correct
       then match dict_get player_name (scores game) with
            | None => raise
            | Some v =>
                update_game game_id
                  (fun g => with_scores (dict_set player_name (v + 10)%Z (scores g)) g)
            end
       else ret tt);;
      broadcast (MAnswerResult player_name is_correct (meaning question)) game_id [];;
      ret (Sleep 3 (KAdvance game_id))
  end.

(** The code after a sleep. *)
Definition resume (k : Cont) : M Susp :=
  match k with
  | KTimeout game_id => question_timeout game_id
  | KAdvance game_id => next_question game_id;; ret Done
  end.

(** [handle_message], up to the sleep inside [handle_answer] when it is
    reached.  The [try] covers the whole body. *)
Definition handle_message (w : ws) (message : Inbound)
    (game_id player_name : string) : M Susp :=
  try_except
    (match message with
     | Unparsable => raise
     | Request action answer =>
         s ← get_server;
         match dict_get game_id (games s) with
         | None => ret Done
         | Some game =>
             if bool_decide (action = Some "join") then
               match dict_get player_name (players game) with
               | None => raise
               | Some p =>
                   update_game game_id
                     (fun g => with_players
                                 (dict_set player_name (mkPlayer (websocket p) true)
                                           (players g)) g);;
                   broadcast_game_state game_id;;
                   ret Done
               end
             else if bool_decide (action = Some "start_game") then
               if bool_decide (player_name = host game)
               then start_game game_id;; ret Done
               else ret Done
             else if bool_decide (action = Some "submit_answer") then
               handle_answer game_id player_name answer
             else if bool_decide (action = Some "play_again") then
               if bool_decide (player_name = host game)
               then reset_game game_id;; ret Done
               else ret Done
             else ret Done
         end
     end)
    (ret Done).

(** [del d[k]], raising [KeyError] on a missing key. *)
Definition del_players (game_id player_name : string) : M unit :=
  game ← get_game game_id;
  if dict_mem player_name (players game)
  then update_game game_id (fun g => with_players (dict_del player_name (players g)) g)
  else raise.

Definition del_scores (game_id player_name : string) : M unit :=
  game ← get_game game_id;
  if dict_mem player_name (scores game)
  then update_game game_id (fun g => with_scores (dict_del player_name (scores g)) g)
  else raise.

Definition handle_disconnect (w : ws) : M unit :=
  s ← get_server;
  match dict_get w (connections s) with
  | None => ret tt
  | Some (game_id, player_name) =>
      match dict_get game_id (games s) with
      | None => ret tt
      | Some game =>
          if dict_mem player_name (players game) then
            del_players game_id player_name;;
            del_scores game_id player_name;;
            broadcast (MPlayerLeft player_name) game_id [w];;
            broadcast_game_state game_id
          else ret tt
      end;;
      modify (fun s => with_connections (dict_del w (connections s)) s)
  end.

Definition new_game (player_name : string) : Game :=
  mkGame [] lobby player_name None [] 0 load_questions.

(** [handle_connection] from its first line to the message loop: the
    result tells whether the loop is entered. *)
Definition handle_connection (w : ws) (path : string) : M bool :=
  let path_parts := split_slash path in
  if bool_decide (length path_parts < 4) then
    modify (fun s => with_closed (w :: closed s) s);;   (* websocket.close() *)
    ret false
  else
    match path_parts !! 2, path_parts !! 3 with
    | Some game_id, Some player_name =>
        s ← get_server;
        (if dict_mem game_id (games s) then ret tt
         else modify (fun s => with_games (dict_set game_id (new_game player_name) (games s)) s));;
        update_game game_id
          (fun g => with_players (dict_set player_name (mkPlayer w false) (players g)) g);;
        update_game game_id
          (fun g => with_scores (dict_set player_name 0%Z (scores g)) g);;
        modify (fun s => with_connections (dict_set w (game_id, player_name) (connections s)) s);;
        broadcast_game_state game_id;;
        ret true
    | _, _ => raise
    end.

(** The [try]/[except]/[finally] around [handle_connection] when the
    message loop is not entered: the finalizer runs at once. *)
Definition accept (w : ws) (path : string) : M unit :=
  entered ← try_except (handle_connection w path) (ret false);
  if (entered : bool) then ret tt else handle_disconnect w.

(** ** The event loop *)

Inductive Event :=
| Connect (w : ws) (path : string)        (* a new connection is served *)
| Receive (w : ws) (message : Inbound)    (* the message loop yields a frame *)
| Close (w : ws)                          (* the transport closes *)
| LoopEnd (w : ws)                        (* the message loop ends; [finally] runs *)
| Wake (i : nat)                          (* the i-th sleeper's delay has elapsed *)
| Tick.                                   (* one time unit passes *)

(** The handler of [w] is inside [asyncio.sleep]. *)
Definition handler_asleep (w : ws) (s : Server) : bool :=
  existsb (fun sl => bool_decide (owner sl = Some w)) (sleeping s).

(** A coroutine that has given control back goes to sleep or ends. *)
Definition park (o : option ws) (r : Outcome Susp) (s : Server) : Server :=
  match r with
  | Ret (Sleep delay k) =>
      with_sleeping (sleeping s ++ [mkSleeper (now s + delay) o k]) s
  | _ => s
  end.

Definition step (e : Event) (s : Server) : option Server :=
  match e with
  | Connect w path =>
      if dict_mem w (connections s) || bool_decide (w ∈ closed s) then None
      else Some (accept w path s).2
  | Receive w message =>
      match dict_get w (connections s) with
      | Some (game_id, player_name) =>
          if handler_asleep w s then None
          else let '(r, s') := handle_message w message game_id player_name s in
               Some (park (Some w) r s')
      | None => None
      end
  | Close w =>
      if dict_mem w (connections s) && negb (bool_decide (w ∈ closed s))
      then Some (with_closed (w :: closed s) s)
      else None
  | LoopEnd w =>
      if dict_mem w (connections s) && bool_decide (w ∈ closed s)
         && negb (handler_asleep w s)
      then Some (handle_disconnect w s).2
      else None
  | Wake i =>
      match sleeping s !! i with
      | Some sl =>
          if bool_decide (due sl <= now s) then
            let '(r, s') := resume (cont sl) (with_sleeping (delete i (sleeping s)) s) in
            Some (park (owner sl) r s')
          else None
      | None => None
      end
  | Tick =>
      if forallb (fun sl => bool_decide (now s < due sl)) (sleeping s)
      then Some (with_now (now s + 1) s)
      else None
  end.

Fixpoint run (es : list Event) (s : Server) : option Server :=
  match es with
  | [] => Some s
  | e :: es' => match step e s with
                | Some s' => run es' s'
                | None => None
                end
  end.

Inductive reachable : Server -> Prop :=
| reachable_init r : reachable (empty_server r)
| reachable_step s e s' : reachable s -> step e s = Some s' -> reachable s'.

(** * Specification *)

(** ** The effect of the methods on a game *)

(** The connections a broadcast writes to: the players' websockets, in
    the order of the [players] dictionary, that are neither excluded nor
    closed. *)
Definition recipients (exclude closed_ : list ws) (ps : list (string * Player)) : list ws :=
  filter (fun w => (w ∉ exclude) /\ (w ∉ closed_)) (map (fun p => websocket p.2) ps).

Definition deliver (message : Msg) (to : list ws) : list (ws * Msg) :=
  map (fun w => (w, message)) to.

(** The frame of [broadcast_game_state]. *)
Definition state_frame (g : Game) : Msg :=
  MGameState (map (fun p => (p.1, ready p.2)) (players g))
             (scores g) (state g) (host g).

(** The game object after [next_question] has picked [question], after
    the assignments of [start_game] and of [reset_game], after a player
    has connected and after a player's entries were deleted. *)
Definition advanced (question : QuizItem) (g : Game) : Game :=
  with_question_index (question_index g + 1)
    (with_current_question (Some question) g).

Definition started (g : Game) : Game :=
  with_scores (reset_scores (scores g)) (with_question_index 0 (with_state playing g)).

Definition reset (g : Game) : Game :=
  with_scores (reset_scores (scores g))
    (with_question_index 0 (with_current_question None (with_state lobby g))).

Definition joined (w : ws) (player_name : string) (g : Game) : Game :=
  with_scores (dict_set player_name 0%Z (scores g))
    (with_players (dict_set player_name (mkPlayer w false) (players g)) g).

Definition left_game (player_name : string) (g : Game) : Game :=
  with_scores (dict_del player_name (scores g))
    (with_players (dict_del player_name (players g)) g).

(** ** The invariant of the reachable states *)

(** A [new_question] frame is well formed when it shows the bank item of
    its round: four choices, a rearrangement of the meaning and the first
    three distractors, the meaning among them once. *)
Definition frame_ok (message : Msg) : Prop :=
  match message with
  | MNewQuestion t choices time_limit question_number =>
      exists q,
        1 <= question_number /\
        load_questions !! (question_number - 1) = Some q /\
        t = term q /\
        length choices = 4 /\
        length (filter (fun c => c = meaning q) choices) = 1 /\
        choices ≡ₚ meaning q :: take 3 (distractors q)
  | _ => True
  end.

(** A session: players and scores have the same keys, each once; the
    bank is the one of [load_questions]; every seat is held by a
    connection that the registry files under this game and this name; a
    playing session has a question on show. *)
Record game_ok (conns : list (ws * (string * string))) (game_id : string)
    (g : Game) : Prop := mk_game_ok {
  ok_keys : dict_keys (players g) = dict_keys (scores g);
  ok_nodup : NoDup (dict_keys (players g));
  ok_bank : questions g = load_questions;
  ok_seat : forall n p, dict_get n (players g) = Some p ->
                        dict_get (websocket p) conns = Some (game_id, n);
  ok_round : state g = playing -> is_Some (current_question g)
}.

Record Inv (s : Server) : Prop := mk_Inv {
  inv_game : forall game_id g,
    dict_get game_id (games s) = Some g -> game_ok (connections s) game_id g;
  inv_conn : forall w game_id n,
    dict_get w (connections s) = Some (game_id, n) ->
    is_Some (dict_get game_id (games s));
  inv_conn_nodup : NoDup (dict_keys (connections s));
  inv_out : Forall (fun f => frame_ok f.2) (outbox s)
}.

(** ** Notions the statements use *)


Definition game_in (game_id : string) (s : Server) : Game :=
  default (new_game "") (dict_get game_id (games s)).

(** What the players can tell of a session: the time, the lifecycle
    state, the question index and the term on show. *)
Definition round_view (game_id : string) (s : Server)
    : nat * State * nat * option string :=
  let g := game_in game_id s in
  (now s, state g, question_index g, term <$> current_question g).

Definition submit (a : string) : Inbound := Request (Some "submit_answer") (Some a).
Definition act (a : string) : Inbound := Request (Some a) None.

(** An answer is waiting out its grace delay in the session. *)
Definition answer_in_grace (game_id : string) (s : Server) : Prop :=
  exists sl, sl ∈ sleeping s /\ is_Some (owner sl) /\ cont sl = KAdvance game_id.

(** The reading of "only the first answer counts" at one state: an
    answer that arrives from [w] while another one is in its grace delay
    changes no score and schedules nothing. *)
Definition later_answer_inert (s : Server) (w : ws) (a : string) : Prop :=
  forall game_id player_name s',
    dict_get w (connections s) = Some (game_id, player_name) ->
    answer_in_grace game_id s ->
    step (Receive w (submit a)) s = Some s' ->
    scores (game_in game_id s') = scores (game_in game_id s) /\
    sleeping s' = sleeping s.


(** ** Sessions to run the statements on *)

Definition ticks (n : nat) : list Event := replicate n Tick.

Definition after (es : list Event) : Server :=
  default (empty_server []) (run es (empty_server [])).

Definition awe : QuizItem :=
  mkQuizItem "awe" "friendly greeting; hey/what's up"
             ["goodbye"; "please"; "thank you"] "easy".

Definition braai : QuizItem :=
  mkQuizItem "braai" "barbecue; cook meat over coals"
             ["bake bread"; "stir-fry veggies"; "drink tea"] "easy".

(** Alice creates game ABC123, Bob joins, Alice starts the game. *)
Definition opening : list Event :=
  [Connect 1 "/ws/ABC123/Alice"; Connect 2 "/ws/ABC123/Bob";
   Receive 1 (act "start_game")].

Definition round1 : Server := Eval vm_compute in after opening.
Definition round1_game : Game := Eval vm_compute in game_in "ABC123" round1.

(** Bob has 10 points when round 2 opens. *)
Definition round2 : Server := Eval vm_compute in
  after (opening ++ [Tick; Receive 2 (submit "friendly greeting; hey/what's up")]
         ++ ticks 3 ++ [Wake 1]).
Definition round2_game : Game := Eval vm_compute in game_in "ABC123" round2.

(** A full game: Bob takes round 1, Alice round 2, Bob misses round 3;
    [last_round] is the moment just before the final advance and
    [game_over] the moment after it. *)
Definition full_game : list Event :=
  opening
  ++ [Tick; Receive 2 (submit "friendly greeting; hey/what's up")] ++ ticks 3
  ++ [Wake 1; Tick; Receive 1 (submit "barbecue; cook meat over coals")] ++ ticks 3
  ++ [Wake 2; Tick; Receive 2 (submit "nope")] ++ ticks 3.

Definition last_round : Server := Eval vm_compute in after full_game.
Definition last_round_game : Game := Eval vm_compute in game_in "ABC123" last_round.

Definition game_over : Server := Eval vm_compute in after (full_game ++ [Wake 3]).
Definition game_over_game : Game := Eval vm_compute in game_in "ABC123" game_over.

(** Round 1, one time unit in: Alice has just answered wrongly. *)
Definition alice_answered : Server := Eval vm_compute in
  after (opening ++ [Tick; Receive 1 (submit "nope")]).

(** Round 1, one time unit in: Alice answers wrongly, every player is
    told the correct answer, and Bob then sends it. *)
Definition two_answers : list Event :=
  opening ++ [Tick; Receive 1 (submit "nope");
              Receive 2 (submit "friendly greeting; hey/what's up")].



(** Round 1 starts at time 0, so its timeout is due at 20.  Bob answers
    at 19; the timeout fires at 20. *)
Definition race : list Event :=
  opening ++ ticks 19 ++ [Receive 2 (submit "nope"); Tick; Wake 0].

(** Bob answers round 1 at time 5, round 2 starts at 8; the timeout of
    round 1 fires at 20. *)
Definition stale : list Event :=
  opening ++ ticks 5 ++ [Receive 2 (submit "nope")] ++ ticks 3 ++ [Wake 1]
  ++ ticks 12 ++ [Wake 0].

(** ** The moves of one session *)

(** The game object after [join] has marked [player_name] ready and
    after a correct answer of [player_name], whose score was [v]. *)
Definition readied (player_name : string) (p : Player) (g : Game) : Game :=
  with_players (dict_set player_name (mkPlayer (websocket p) true) (players g)) g.

Definition scored (player_name : string) (v : Z) (g : Game) : Game :=
  with_scores (dict_set player_name (v + 10)%Z (scores g)) g.

(** What one step of the event loop can do to a session that exists:
    one constructor per assignment sequence of the methods. *)
Inductive game_move (g : Game) : Game -> Prop :=
| move_join w n : game_move g (joined w n g)
| move_leave n : dict_mem n (players g) = true -> game_move g (left_game n g)
| move_ready n p : dict_get n (players g) = Some p -> game_move g (readied n p g)
| move_start q : questions g !! 0 = Some q -> game_move g (advanced q (started g))
| move_reset : game_move g (reset g)
| move_score n v q :
    current_question g = Some q -> dict_get n (scores g) = Some v ->
    game_move g (scored n v g)
| move_advance q :
    questions g !! question_index g = Some q -> game_move g (advanced q g)
| move_finish :
    length (questions g) <= question_index g -> game_move g (with_state finished g).

(** The session an event is about: the one named by the path of a new
    connection, the one a connection is registered under, the one a
    sleeping coroutine was started for. *)
Definition event_game (e : Event) (s : Server) : option string :=
  match e with
  | Connect w path =>
      if bool_decide (length (split_slash path) < 4) then None
      else split_slash path !! 2
  | Receive w _ | LoopEnd w => fst <$> dict_get w (connections s)
  | Wake i =>
      match sleeping s !! i with
      | Some sl => Some (match cont sl with KTimeout g | KAdvance g => g end)
      | None => None
      end
  | Close _ | Tick => None
  end.

(** [w] is the stored websocket of a player of the session. *)
Definition seated (w : ws) (game_id : string) (s : Server) : Prop :=
  exists g n p,
    dict_get game_id (games s) = Some g /\ (n, p) ∈ players g /\ websocket p = w.

(** What a step about session [game_id] does to the games and to the
    outbox: frames are only added, each to a websocket that was open
    ([cl] lists the closed ones) and is seated in the session; at most
    the session itself changes, by one move, or is created by a join. *)
Definition effect (game_id : string) (cl : list ws) (s s' : Server) : Prop :=
  (exists extra,
     outbox s' = outbox s ++ extra /\
     forall f, f ∈ extra -> (f.1 ∉ cl) /\ seated f.1 game_id s') /\
  (games s' = games s \/
   exists g',
     games s' = dict_set game_id g' (games s) /\
     match dict_get game_id (games s) with
     | Some g => game_move g g'
     | None => exists w n, g' = joined w n (new_game n)
     end).

(** [n] calls of [next_question] in a row. *)
Fixpoint advances (n : nat) (game_id : string) : M unit :=
  match n with
  | 0 => ret tt
  | S n' => next_question game_id;; advances n' game_id
  end.

(** ** The request path *)

(** The number of ['/'] in a string, and the text before the first one. *)
Fixpoint slashes (s : string) : nat :=
  match s with
  | EmptyString => 0
  | String c s' => if decide (c = "/"%char) then S (slashes s') else slashes s'
  end.

Fixpoint before_slash (s : string) : string :=
  match s with
  | EmptyString => EmptyString
  | String c s' => if decide (c = "/"%char) then EmptyString else String c (before_slash s')
  end.

(** The text [/ws/<game_id>/<rest>]: a request path of the shape that
    [handle_connection] takes apart.  It stands for the [path] argument
    of the server only; which names a client can bring into a request
    path is decided by the URL handling of the websockets library, which
    is not part of the embedding. *)
Definition ws_path (game_id rest : string) : string :=
  String.append "/ws/" (String.append game_id (String.append "/" rest)).

(** ** The client's final scoreboard *)

(** [sorted(final_scores.items(), key=lambda x: x[1], reverse=True)] in
    the client's [finish_game]: Python's sort is stable, also under
    [reverse=True], which fixes the result: descending scores, equal
    scores in the order of the dictionary. *)
Fixpoint insert_desc (x : string * Z) (l : list (string * Z)) : list (string * Z) :=
  match l with
  | [] => [x]
  | y :: l' => if (x.2 <? y.2)%Z then y :: insert_desc x l' else x :: y :: l'
  end.

Definition sorted_desc (items : list (string * Z)) : list (string * Z) :=
  foldr insert_desc [] items.

(** ** More sessions to run the statements on *)

(** Game G exists with Alice in it. *)
Definition alice_alone : Server := Eval vm_compute in
  after [Connect 1 "/ws/G/Alice"].
Definition alice_alone_game : Game := Eval vm_compute in game_in "G" alice_alone.

(** Two connections joined game G as Bob, the first of them has gone and
    taken the name with it; Alice has started the game. *)
Definition twin_seatless : Server := Eval vm_compute in
  after [Connect 1 "/ws/G/Alice"; Connect 2 "/ws/G/Bob"; Connect 3 "/ws/G/Bob";
         Close 2; LoopEnd 2; Receive 1 (act "start_game")].
Definition twin_seatless_game : Game := Eval vm_compute in game_in "G" twin_seatless.

(** The timeout of round 1 is due while the session is back in the lobby. *)
Definition timeout_in_lobby : Server := Eval vm_compute in
  after (opening ++ [Receive 1 (act "play_again")] ++ ticks 20).

(** Alice plays in game G and Bob sits in game H; then Alice answers. *)
Definition two_games : Server := Eval vm_compute in
  after [Connect 1 "/ws/G/Alice"; Connect 2 "/ws/H/Bob"; Receive 1 (act "start_game")].
Definition two_games_next : Server := Eval vm_compute in
  after [Connect 1 "/ws/G/Alice"; Connect 2 "/ws/H/Bob"; Receive 1 (act "start_game");
         Receive 1 (submit "nope")].

(** Round 1 after Bob's correct answer. *)
Definition round1_scored : Server := Eval vm_compute in
  after (opening ++ [Receive 2 (submit "friendly greeting; hey/what's up")]).

(** Bob joins game G, and Alice, its host, leaves. *)
Definition host_leaves : list Event :=
  [Connect 2 "/ws/G/Bob"; Close 1; LoopEnd 1].
Definition host_gone : Server := Eval vm_compute in
  after ([Connect 1 "/ws/G/Alice"] ++ host_leaves).

(** A session whose only bank item has a single distractor. *)
Definition short_bank_game : Game :=
  mkGame [("Alice", mkPlayer 1 false)] playing "Alice" None [("Alice", 0%Z)] 0
         [mkQuizItem "lekker" "nice" ["nasty"] "easy"].
Definition short_bank : Server :=
  mkServer [("G", short_bank_game)] [(1, ("G", "Alice"))] [] 0 [] [] [].

(** * Verification *)

(** ** Dictionaries *)

Section DictFacts.
Context {K V : Type} `{EqDecision K}.
Implicit Types (k : K) (v : V) (d : list (K * V)).

Lemma dict_get_set_eq k v d : dict_get k (dict_set k v d) = Some v.
Proof.
  induction d as [|[k' v'] d IH]; simpl.
  - by rewrite decide_True.
  - destruct (decide (k = k')) as [->|Hne]; simpl.
    + by rewrite decide_True.
    + by rewrite decide_False.
Qed.

Lemma dict_get_set_ne k k' v d :
  k ≠ k' -> dict_get k' (dict_set k v d) = dict_get k' d.
Proof.
  intros Hne. induction d as [|[k0 v0] d IH]; simpl.
  - by rewrite decide_False.
  - destruct (decide (k = k0)) as [->|Hk]; simpl.
    + by rewrite !decide_False.
    + by rewrite IH.
Qed.

Lemma dict_get_set k k' v d :
  dict_get k' (dict_set k v d) = if decide (k = k') then Some v else dict_get k' d.
Proof.
  destruct (decide (k = k')) as [->|Hne].
  - apply dict_get_set_eq.
  - by apply dict_get_set_ne.
Qed.

Lemma dict_get_Some_elem k v d : dict_get k d = Some v -> (k, v) ∈ d.
Proof.
  induction d as [|[k' v'] d IH]; simpl; [done|].
  destruct (decide (k = k')) as [->|Hne].
  - intros [= ->]. left.
  - intros Hg. right. by apply IH.
Qed.

Lemma dict_get_is_Some k d : is_Some (dict_get k d) <-> k ∈ dict_keys d.
Proof.
  unfold dict_keys. induction d as [|[k' v'] d IH]; simpl.
  - split; [by intros [? ?]|by intros ?%elem_of_nil].
  - destruct (decide (k = k')) as [->|Hne].
    + split; [left|eauto].
    + rewrite IH. split; [by right|].
      intros [?|?]%elem_of_cons; [done|done].
Qed.

Lemma dict_get_None k d : dict_get k d = None <-> k ∉ dict_keys d.
Proof.
  rewrite <- dict_get_is_Some. rewrite eq_None_not_Some. done.
Qed.

Lemma dict_mem_true k d : dict_mem k d = true <-> k ∈ dict_keys d.
Proof.
  rewrite <- dict_get_is_Some. unfold dict_mem.
  destruct (dict_get k d); split; try done; intros [? ?]; done.
Qed.

Lemma dict_mem_false k d : dict_mem k d = false <-> k ∉ dict_keys d.
Proof.
  rewrite <- dict_mem_true. destruct (dict_mem k d); split; try done.
  all: intros Hn; try done; by destruct Hn.
Qed.

Lemma dict_elem_get k v d : NoDup (dict_keys d) -> (k, v) ∈ d -> dict_get k d = Some v.
Proof.
  unfold dict_keys. induction d as [|[k' v'] d IH]; simpl.
  - by intros _ ?%elem_of_nil.
  - intros [Hnotin Hnd]%NoDup_cons [Heq|Hin]%elem_of_cons.
    + injection Heq as -> ->. by rewrite decide_True.
    + destruct (decide (k = k')) as [->|Hne]; [|by apply IH].
      destruct Hnotin. apply list_elem_of_fmap. by exists (k', v).
Qed.

(** Keys after [d[k] = v]: unchanged for a present key, extended at the
    end for a new one. *)
Lemma dict_keys_set k v d :
  dict_keys (dict_set k v d) =
  if dict_mem k d then dict_keys d else dict_keys d ++ [k].
Proof.
  unfold dict_keys, dict_mem. induction d as [|[k' v'] d IH]; csimpl; [done|].
  destruct (decide (k = k')) as [->|Hne]; csimpl; [done|].
  rewrite IH. by destruct (dict_get k d).
Qed.

Lemma dict_keys_set_present k v d :
  k ∈ dict_keys d -> dict_keys (dict_set k v d) = dict_keys d.
Proof.
  intros Hin. rewrite dict_keys_set.
  by apply dict_mem_true in Hin as ->.
Qed.

End DictFacts.

(** ** Running the monad *)

Lemma bind_run {A B} (m : M A) (f : A -> M B) s :
  (m ≫= f) s = match m s with
               | (Ret a, s') => f a s'
               | (Raise, s') => (Raise, s')
               end.
Proof. reflexivity. Qed.

Ltac mstep :=
  repeat first
    [ rewrite bind_run
    | progress cbn [get_server modify ret raise mret M_ret fst snd] ].

Lemma get_game_run game_id g s :
  dict_get game_id (games s) = Some g -> get_game game_id s = (Ret g, s).
Proof. intros Hg. unfold get_game. by rewrite Hg. Qed.

Lemma update_game_run game_id f g s :
  dict_get game_id (games s) = Some g ->
  update_game game_id f s =
  (Ret tt, with_games (dict_set game_id (f g) (games s)) s).
Proof. intros Hg. unfold update_game. mstep. by rewrite (get_game_run _ g). Qed.

Lemma send_all_run message exclude ps s :
  send_all message exclude ps s =
  (Ret tt, with_outbox (outbox s ++ deliver message (recipients exclude (closed s) ps)) s).
Proof.
  revert s. induction ps as [|[n p] ps IH]; intros s.
  - cbn. unfold with_outbox. rewrite app_nil_r. by destruct s.
  - cbn [send_all]. mstep. unfold recipients. cbn [map snd]. rewrite filter_cons.
    destruct (decide ((websocket p ∉ exclude) ∧ (websocket p ∉ closed s))) as [[H1 H2]|Hn].
    + rewrite (bool_decide_eq_false_2 (websocket p ∈ exclude)) by exact H1.
      rewrite (bool_decide_eq_false_2 (websocket p ∈ closed s)) by exact H2.
      cbn [negb andb]. unfold send. mstep.
      rewrite IH. cbn. unfold with_outbox. cbn. by rewrite <- app_assoc.
    + assert (negb (bool_decide (websocket p ∈ exclude))
              && negb (bool_decide (websocket p ∈ closed s)) = false) as ->.
      { apply andb_false_iff. rewrite !negb_false_iff, !bool_decide_eq_true.
        apply not_and_l in Hn as [Hn|Hn]; [left|right]; by apply dec_stable. }
      mstep. apply IH.
Qed.

Lemma dict_set_set {K V} `{EqDecision K} (k : K) (v v' : V) d :
  dict_set k v (dict_set k v' d) = dict_set k v d.
Proof.
  induction d as [|[k0 v0] d IH]; simpl.
  - by rewrite decide_True.
  - destruct (decide (k = k0)) as [->|Hne]; simpl.
    + by rewrite decide_True.
    + by rewrite decide_False, IH.
Qed.

Lemma games_with_games gs s : games (with_games gs s) = gs.
Proof. reflexivity. Qed.

Lemma with_games_twice gs gs' s : with_games gs (with_games gs' s) = with_games gs s.
Proof. reflexivity. Qed.

Lemma broadcast_run message game_id exclude g s :
  dict_get game_id (games s) = Some g ->
  broadcast message game_id exclude s =
  (Ret tt, with_outbox (outbox s ++ deliver message
                          (recipients exclude (closed s) (players g))) s).
Proof.
  intros Hg. unfold broadcast. mstep. rewrite Hg. apply send_all_run.
Qed.

Lemma broadcast_game_state_run game_id g s :
  dict_get game_id (games s) = Some g ->
  broadcast_game_state game_id s =
  (Ret tt, with_outbox
             (outbox s ++ deliver
                (MGameState (map (fun p => (p.1, ready p.2)) (players g))
                            (scores g) (state g) (host g))
                (recipients [] (closed s) (players g))) s).
Proof.
  intros Hg. unfold broadcast_game_state. mstep.
  rewrite (get_game_run _ g) by done. by apply broadcast_run.
Qed.

(** Rewriting a method body into its effect on the server, one call at a
    time, while the game is known. *)
Ltac game_known :=
  cbn [games with_games with_outbox with_sleeping with_rng with_now
       with_closed with_connections];
  first [ eassumption | apply dict_get_set_eq ].

Ltac mrun :=
  repeat first
    [ rewrite bind_run
    | erewrite update_game_run by game_known
    | erewrite get_game_run by game_known
    | erewrite broadcast_game_state_run by game_known
    | erewrite broadcast_run by game_known
    | rewrite with_games_twice
    | rewrite games_with_games
    | rewrite dict_set_set
    | progress cbn [get_server modify ret raise mret M_ret fst snd] ].

Lemma end_game_run game_id g s :
  dict_get game_id (games s) = Some g ->
  end_game game_id s =
  (Ret tt,
   with_outbox (outbox s ++ deliver (MGameOver (scores g) (winner_of (scores g)))
                  (recipients [] (closed s) (players g)))
     (with_games (dict_set game_id (with_state finished g) (games s)) s)).
Proof.
  intros Hg. unfold end_game. mrun. reflexivity.
Qed.

Lemma randbelow_run n s :
  exists j r, randbelow n s = (Ret j, with_rng r s).
Proof.
  unfold randbelow. destruct s as [gs cs cl t sl ob [|r rs]]; cbn; eauto.
Qed.

Lemma swap_Permutation {A} i j (x : list A) : swap i j x ≡ₚ x.
Proof.
  unfold swap.
  destruct (x !! i) as [a|] eqn:Hi; [|done].
  destruct (x !! j) as [b|] eqn:Hj; [|done].
  by apply Permutation_insert_swap.
Qed.

Lemma shuffle_from_run {A} i (x : list A) s :
  exists x' r, shuffle_from i x s = (Ret x', with_rng r s) /\ x' ≡ₚ x.
Proof.
  revert x s. induction i as [|i IH]; intros x s.
  - exists x, (rng s). split; [by destruct s|done].
  - cbn [shuffle_from]. mstep.
    destruct (randbelow_run (S (S i)) s) as (j & r & ->).
    destruct (IH (swap (S i) j x) (with_rng r s)) as (x' & r' & -> & Hp).
    exists x', r'. split; [done|].
    by rewrite Hp, swap_Permutation.
Qed.

Lemma shuffle_run {A} (x : list A) s :
  exists x' r, shuffle x s = (Ret x', with_rng r s) /\ x' ≡ₚ x.
Proof. apply shuffle_from_run. Qed.

Lemma next_question_run_end game_id g s :
  dict_get game_id (games s) = Some g ->
  length (questions g) <= question_index g ->
  next_question game_id s = end_game game_id s.
Proof.
  intros Hg Hle. unfold next_question. mrun.
  by rewrite bool_decide_eq_true_2.
Qed.

Lemma next_question_run game_id g question s :
  dict_get game_id (games s) = Some g ->
  questions g !! question_index g = Some question ->
  exists choices r,
    choices ≡ₚ meaning question :: take 3 (distractors question) /\
    next_question game_id s =
    (Ret tt,
     with_sleeping (sleeping s ++ [mkSleeper (now s + 20) None (KTimeout game_id)])
       (with_outbox
          (outbox s ++ deliver
             (MNewQuestion (term question) choices 20 (question_index g + 1))
             (recipients [] (closed s) (players g)))
          (with_rng r
             (with_games (dict_set game_id (advanced question g) (games s)) s)))).
Proof.
  intros Hg Hq. unfold next_question. mrun.
  rewrite bool_decide_eq_false_2 by (apply lookup_lt_Some in Hq; lia).
  rewrite Hq. mrun.
  match goal with |- context [shuffle ?x ?s'] =>
    destruct (shuffle_run x s') as (choices & r & -> & Hp) end.
  exists choices, r. split; [done|]. mrun. reflexivity.
Qed.

Lemma start_game_run game_id g s :
  dict_get game_id (games s) = Some g ->
  start_game game_id s =
  next_question game_id (with_games (dict_set game_id (started g) (games s)) s).
Proof.
  intros Hg. unfold start_game. mrun. reflexivity.
Qed.

Lemma reset_game_run game_id g s :
  dict_get game_id (games s) = Some g ->
  reset_game game_id s =
  (Ret tt,
   with_outbox (outbox s ++ deliver (state_frame (reset g))
                  (recipients [] (closed s) (players g)))
     (with_games (dict_set game_id (reset g) (games s)) s)).
Proof.
  intros Hg. unfold reset_game. mrun. reflexivity.
Qed.

Lemma question_timeout_run_fire game_id g question s :
  dict_get game_id (games s) = Some g ->
  state g = playing ->
  current_question g = Some question ->
  question_timeout game_id s =
  (Ret (Sleep 3 (KAdvance game_id)),
   with_outbox (outbox s ++ deliver (MAnswerResult "System" false (meaning question))
                  (recipients [] (closed s) (players g))) s).
Proof.
  intros Hg Hst Hq. unfold question_timeout. mrun. rewrite Hg, Hst, Hq. mrun.
  reflexivity.
Qed.

Lemma question_timeout_run_stale game_id s :
  match dict_get game_id (games s) with
  | Some g => state g <> playing \/ current_question g = None
  | None => True
  end ->
  question_timeout game_id s = (Ret Done, s).
Proof.
  unfold question_timeout. mrun.
  destruct (dict_get game_id (games s)) as [g|]; [|done].
  intros [Hst|Hq].
  - destruct (state g); try done; by destruct (current_question g).
  - rewrite Hq. by destruct (state g).
Qed.

Lemma handle_answer_run_idle game_id player_name answer g s :
  dict_get game_id (games s) = Some g ->
  current_question g = None ->
  handle_answer game_id player_name answer s = (Ret Done, s).
Proof.
  intros Hg Hq. unfold handle_answer. mrun. by rewrite Hq.
Qed.

Lemma handle_answer_run_correct game_id player_name g question v s :
  dict_get game_id (games s) = Some g ->
  current_question g = Some question ->
  dict_get player_name (scores g) = Some v ->
  handle_answer game_id player_name (Some (meaning question)) s =
  (Ret (Sleep 3 (KAdvance game_id)),
   with_outbox (outbox s ++ deliver (MAnswerResult player_name true (meaning question))
                  (recipients [] (closed s) (players g)))
     (with_games
        (dict_set game_id
           (with_scores (dict_set player_name (v + 10)%Z (scores g)) g) (games s)) s)).
Proof.
  intros Hg Hq Hv. unfold handle_answer. mrun. rewrite Hq.
  rewrite bool_decide_eq_true_2 by done. rewrite Hv. mrun. reflexivity.
Qed.

Lemma handle_answer_run_unscored game_id player_name g question s :
  dict_get game_id (games s) = Some g ->
  current_question g = Some question ->
  dict_get player_name (scores g) = None ->
  handle_answer game_id player_name (Some (meaning question)) s = (Raise, s).
Proof.
  intros Hg Hq Hv. unfold handle_answer. mrun. rewrite Hq.
  rewrite bool_decide_eq_true_2 by done. rewrite Hv. by mrun.
Qed.

Lemma handle_answer_run_wrong game_id player_name answer g question s :
  dict_get game_id (games s) = Some g ->
  current_question g = Some question ->
  answer <> Some (meaning question) ->
  handle_answer game_id player_name answer s =
  (Ret (Sleep 3 (KAdvance game_id)),
   with_outbox (outbox s ++ deliver (MAnswerResult player_name false (meaning question))
                  (recipients [] (closed s) (players g))) s).
Proof.
  intros Hg Hq Hne. unfold handle_answer. mrun. rewrite Hq.
  rewrite bool_decide_eq_false_2 by done. mrun. reflexivity.
Qed.

Lemma handle_disconnect_run_unknown w s :
  dict_get w (connections s) = None ->
  handle_disconnect w s = (Ret tt, s).
Proof. intros Hw. unfold handle_disconnect. mrun. by rewrite Hw. Qed.

Lemma handle_disconnect_run_absent w game_id player_name s :
  dict_get w (connections s) = Some (game_id, player_name) ->
  match dict_get game_id (games s) with
  | Some g => dict_mem player_name (players g) = false
  | None => True
  end ->
  handle_disconnect w s =
  (Ret tt, with_connections (dict_del w (connections s)) s).
Proof.
  intros Hw Hg. unfold handle_disconnect. mrun. rewrite Hw.
  destruct (dict_get game_id (games s)) as [g|]; [rewrite Hg|]; by mrun.
Qed.

Lemma handle_disconnect_run w game_id player_name g s :
  dict_get w (connections s) = Some (game_id, player_name) ->
  dict_get game_id (games s) = Some g ->
  dict_mem player_name (players g) = true ->
  dict_mem player_name (scores g) = true ->
  handle_disconnect w s =
  (Ret tt,
   with_connections (dict_del w (connections s))
     (with_outbox
        (outbox s
         ++ deliver (MPlayerLeft player_name)
              (recipients [w] (closed s) (players (left_game player_name g)))
         ++ deliver (state_frame (left_game player_name g))
              (recipients [] (closed s) (players (left_game player_name g))))
        (with_games (dict_set game_id (left_game player_name g) (games s)) s))).
Proof.
  intros Hw Hg Hp Hs. unfold handle_disconnect. mrun. rewrite Hw, Hg, Hp.
  unfold del_players, del_scores. mrun. rewrite Hp. mrun.
  cbn [scores with_players]. rewrite Hs. mrun.
  unfold with_connections, with_outbox, with_games; cbn.
  by rewrite <- app_assoc.
Qed.

Lemma handle_connection_run_short w path s :
  length (split_slash path) < 4 ->
  handle_connection w path s = (Ret false, with_closed (w :: closed s) s).
Proof.
  intros Hlen. unfold handle_connection. cbn zeta.
  rewrite bool_decide_eq_true_2 by done. by mrun.
Qed.

Lemma handle_connection_run w path game_id player_name s :
  4 <= length (split_slash path) ->
  split_slash path !! 2 = Some game_id ->
  split_slash path !! 3 = Some player_name ->
  let g := joined w player_name
             (default (new_game player_name) (dict_get game_id (games s))) in
  handle_connection w path s =
  (Ret true,
   with_outbox (outbox s ++ deliver (state_frame g) (recipients [] (closed s) (players g)))
     (with_connections (dict_set w (game_id, player_name) (connections s))
        (with_games (dict_set game_id g (games s)) s))).
Proof.
  intros Hlen H2 H3 g. unfold handle_connection. cbn zeta.
  rewrite bool_decide_eq_false_2 by lia. rewrite H2, H3. mrun.
  subst g. unfold dict_mem.
  destruct (dict_get game_id (games s)) as [g0|] eqn:Hg; mrun; reflexivity.
Qed.

(** ** The invariant is kept by every step *)

Lemma dict_mem_keys {K V V'} `{EqDecision K} (k : K) (d : list (K * V)) (d' : list (K * V')) :
  dict_keys d = dict_keys d' -> dict_mem k d = dict_mem k d'.
Proof.
  intros Hk. destruct (dict_mem k d') eqn:Hm.
  - apply dict_mem_true. rewrite Hk. by apply dict_mem_true.
  - apply dict_mem_false. rewrite Hk. by apply dict_mem_false.
Qed.

Lemma dict_keys_del_eq {K V V'} `{EqDecision K} (k : K) (d : list (K * V)) (d' : list (K * V')) :
  dict_keys d = dict_keys d' -> dict_keys (dict_del k d) = dict_keys (dict_del k d').
Proof.
  unfold dict_keys. revert d'. induction d as [|[k1 v1] d IH]; intros [|[k2 v2] d']; csimpl;
    try done.
  intros [= -> Hk]. destruct (decide (k = k2)); csimpl; [done|].
  f_equal. by apply IH.
Qed.

Lemma dict_keys_del_sub {K V} `{EqDecision K} (k k' : K) (d : list (K * V)) :
  k' ∈ dict_keys (dict_del k d) -> k' ∈ dict_keys d.
Proof.
  unfold dict_keys. induction d as [|[k1 v1] d IH]; csimpl; [done|].
  destruct (decide (k = k1)); csimpl.
  - by right.
  - intros [->|Hin]%elem_of_cons; [left|right; by apply IH].
Qed.

Lemma dict_del_NoDup {K V} `{EqDecision K} (k : K) (d : list (K * V)) :
  NoDup (dict_keys d) -> NoDup (dict_keys (dict_del k d)).
Proof.
  unfold dict_keys. induction d as [|[k1 v1] d IH]; csimpl; [done|].
  intros [Hnotin Hnd]%NoDup_cons. destruct (decide (k = k1)); csimpl; [done|].
  apply NoDup_cons. split; [|by apply IH].
  intros Hin. apply Hnotin. by apply (dict_keys_del_sub k).
Qed.

Lemma dict_get_del_ne {K V} `{EqDecision K} (k k' : K) (d : list (K * V)) :
  k <> k' -> dict_get k' (dict_del k d) = dict_get k' d.
Proof.
  intros Hne. induction d as [|[k1 v1] d IH]; simpl; [done|].
  destruct (decide (k = k1)) as [->|Hk]; simpl.
  - by rewrite decide_False.
  - by rewrite IH.
Qed.

Lemma dict_get_del_eq {K V} `{EqDecision K} (k : K) (d : list (K * V)) :
  NoDup (dict_keys d) -> dict_get k (dict_del k d) = None.
Proof.
  unfold dict_keys. induction d as [|[k1 v1] d IH]; csimpl; [done|].
  intros [Hnotin Hnd]%NoDup_cons. destruct (decide (k = k1)) as [->|Hk]; simpl.
  - by apply dict_get_None.
  - rewrite decide_False by done. by apply IH.
Qed.

Lemma dict_set_NoDup {K V} `{EqDecision K} (k : K) (v : V) (d : list (K * V)) :
  NoDup (dict_keys d) -> NoDup (dict_keys (dict_set k v d)).
Proof.
  intros Hnd. rewrite dict_keys_set. destruct (dict_mem k d) eqn:Hm; [done|].
  apply NoDup_app. split_and!; [done| |apply NoDup_singleton].
  intros x Hx ->%list_elem_of_singleton. by apply dict_mem_false in Hm.
Qed.

(** [reset_scores] keeps the keys, in order, and zeroes every value. *)
Lemma reset_scores_keys_gen (ks : list string) (sc : list (string * Z)) :
  (forall k, k ∈ ks -> k ∈ dict_keys sc) ->
  dict_keys (foldl (fun d player => dict_set player 0%Z d) sc ks) = dict_keys sc.
Proof.
  revert sc. induction ks as [|k ks IH]; intros sc Hin; simpl; [done|].
  rewrite IH.
  - apply dict_keys_set_present, Hin. left.
  - intros k' Hk'. rewrite dict_keys_set_present by (apply Hin; left).
    apply Hin. by right.
Qed.

Lemma reset_scores_keys sc : dict_keys (reset_scores sc) = dict_keys sc.
Proof. by apply reset_scores_keys_gen. Qed.

Lemma reset_scores_get_gen (ks : list string) (sc : list (string * Z)) k :
  dict_get k (foldl (fun d player => dict_set player 0%Z d) sc ks) =
  if bool_decide (k ∈ ks) then Some 0%Z else dict_get k sc.
Proof.
  revert sc. induction ks as [|k0 ks IH]; intros sc; simpl; [done|].
  rewrite IH. destruct (decide (k ∈ ks)) as [Hin|Hnin].
  - rewrite !bool_decide_eq_true_2; [done|by right|done].
  - rewrite (bool_decide_eq_false_2 (k ∈ ks)) by done.
    rewrite dict_get_set. destruct (decide (k0 = k)) as [->|Hne].
    + rewrite bool_decide_eq_true_2; [done|left].
    + rewrite bool_decide_eq_false_2; [done|].
      intros [->|?]%elem_of_cons; done.
Qed.

Lemma reset_scores_get sc k :
  dict_get k (reset_scores sc) = if dict_mem k sc then Some 0%Z else None.
Proof.
  unfold reset_scores. rewrite reset_scores_get_gen.
  destruct (dict_mem k sc) eqn:Hm.
  - apply dict_mem_true in Hm. by rewrite bool_decide_eq_true_2.
  - apply dict_mem_false in Hm. rewrite bool_decide_eq_false_2 by done.
    by apply dict_get_None.
Qed.

Lemma reset_scores_zero sc k v :
  NoDup (dict_keys sc) -> (k, v) ∈ reset_scores sc -> v = 0%Z.
Proof.
  intros Hnd Hin. apply dict_elem_get in Hin.
  - rewrite reset_scores_get in Hin. destruct (dict_mem k sc); congruence.
  - by rewrite reset_scores_keys.
Qed.

(** *** Pieces of the server state that the invariant does not read *)

Lemma Inv_with_sleeping sl s : Inv s -> Inv (with_sleeping sl s).
Proof. intros [H1 H2 H3 H4]. by split. Qed.

Lemma Inv_with_rng r s : Inv s -> Inv (with_rng r s).
Proof. intros [H1 H2 H3 H4]. by split. Qed.

Lemma Inv_with_now t s : Inv s -> Inv (with_now t s).
Proof. intros [H1 H2 H3 H4]. by split. Qed.

Lemma Inv_with_closed cl s : Inv s -> Inv (with_closed cl s).
Proof. intros [H1 H2 H3 H4]. by split. Qed.

Lemma Inv_park o r s : Inv s -> Inv (park o r s).
Proof.
  intros HI. destruct r as [[|delay k]|]; cbn; try done.
  by apply Inv_with_sleeping.
Qed.

Lemma Forall_deliver message to :
  frame_ok message -> Forall (fun f => frame_ok f.2) (deliver message to).
Proof.
  intros Hm. unfold deliver. apply Forall_forall.
  intros [w m] Hin. apply list_elem_of_fmap in Hin as (w' & [= -> ->] & _). done.
Qed.

Lemma Inv_with_outbox extra s :
  Inv s -> Forall (fun f => frame_ok f.2) extra -> Inv (with_outbox (outbox s ++ extra) s).
Proof.
  intros [H1 H2 H3 H4] Hx. split; try done. cbn. by apply Forall_app.
Qed.

Lemma Inv_deliver message to s :
  Inv s -> frame_ok message -> Inv (with_outbox (outbox s ++ deliver message to) s).
Proof. intros HI Hm. by apply Inv_with_outbox, Forall_deliver. Qed.

(** *** Replacing one game *)

Lemma Inv_set_game game_id g' s :
  Inv s -> game_ok (connections s) game_id g' ->
  Inv (with_games (dict_set game_id g' (games s)) s).
Proof.
  intros [H1 H2 H3 H4] Hok. split; cbn; [| |done|done].
  - intros gid g. rewrite dict_get_set.
    destruct (decide (game_id = gid)) as [->|Hne]; [by intros [= <-]|apply H1].
  - intros w gid n Hw. rewrite dict_get_set.
    destruct (decide (game_id = gid)); [done|by eapply H2].
Qed.

(** A mutation that leaves the roster, the score keys and the bank alone. *)
Lemma game_ok_same_roster conns game_id g g' :
  game_ok conns game_id g ->
  players g' = players g ->
  dict_keys (scores g') = dict_keys (scores g) ->
  questions g' = questions g ->
  (state g' = playing -> is_Some (current_question g')) ->
  game_ok conns game_id g'.
Proof.
  intros [H1 H2 H3 H4 H5] Hp Hs Hq Hr. split.
  - by rewrite Hp, Hs.
  - by rewrite Hp.
  - by rewrite Hq.
  - by rewrite Hp.
  - done.
Qed.

Lemma Inv_end_game game_id s : Inv s -> Inv (end_game game_id s).2.
Proof.
  intros HI. destruct (dict_get game_id (games s)) as [g|] eqn:Hg.
  - rewrite (end_game_run _ g) by done. cbn [snd].
    apply (Inv_deliver _ _ (with_games _ s)); [|done].
    apply Inv_set_game; [done|].
    apply (game_ok_same_roster _ _ g); try done. by apply HI.
  - unfold end_game, update_game, get_game. mstep. by rewrite Hg.
Qed.

Lemma load_questions_frame i q choices :
  load_questions !! i = Some q ->
  choices ≡ₚ meaning q :: take 3 (distractors q) ->
  frame_ok (MNewQuestion (term q) choices 20 (i + 1)).
Proof.
  intros Hq Hp. exists q. replace (i + 1 - 1) with i by lia.
  split_and!; try done; [lia| |].
  - rewrite Hp.
    destruct i as [|[|[|i]]]; cbn in Hq; try done; by injection Hq as <-.
  - rewrite Hp.
    destruct i as [|[|[|i]]]; cbn in Hq; try done; injection Hq as <-; by vm_compute.
Qed.

Lemma Inv_next_question game_id s : Inv s -> Inv (next_question game_id s).2.
Proof.
  intros HI. destruct (dict_get game_id (games s)) as [g|] eqn:Hg.
  - destruct (questions g !! question_index g) as [q|] eqn:Hq.
    + destruct (next_question_run _ _ _ _ Hg Hq) as (choices & r & Hp & ->).
      cbn [snd]. apply Inv_with_sleeping.
      apply (Inv_deliver _ _ (with_rng _ (with_games _ s))).
      * apply Inv_with_rng, Inv_set_game; [done|].
        apply (game_ok_same_roster _ _ g); try done. by apply HI.
      * apply load_questions_frame; [|done].
        by rewrite <- (ok_bank _ _ _ (inv_game _ HI _ _ Hg)).
    + rewrite (next_question_run_end _ g) by (by apply lookup_ge_None in Hq).
      by apply Inv_end_game.
  - unfold next_question, get_game. mstep. by rewrite Hg.
Qed.

Lemma Inv_start_game game_id s : Inv s -> Inv (start_game game_id s).2.
Proof.
  intros HI. destruct (dict_get game_id (games s)) as [g|] eqn:Hg.
  - rewrite (start_game_run _ g) by done.
    pose proof (inv_game _ HI _ _ Hg) as Hok.
    set (s1 := with_games (dict_set game_id (started g) (games s)) s).
    assert (dict_get game_id (games s1) = Some (started g)) as Hg1
      by apply dict_get_set_eq.
    assert (questions (started g) !! question_index (started g)
            = Some (mkQuizItem "awe" "friendly greeting; hey/what's up"
                      ["goodbye"; "please"; "thank you"] "easy")) as Hq.
    { cbn. by rewrite (ok_bank _ _ _ Hok). }
    destruct (next_question_run _ _ _ _ Hg1 Hq) as (choices & r & Hp & ->).
    cbn [snd]. apply Inv_with_sleeping.
    apply (Inv_deliver _ _
             (with_rng r (with_games (dict_set game_id (advanced _ (started g)) (games s1)) s1))).
    + apply Inv_with_rng. subst s1. rewrite with_games_twice, games_with_games, dict_set_set.
      apply Inv_set_game; [done|].
      apply (game_ok_same_roster _ _ g); try done.
      apply reset_scores_keys.
    + by apply (load_questions_frame 0).
  - unfold start_game, update_game, get_game. mstep. by rewrite Hg.
Qed.

Lemma Inv_reset_game game_id s : Inv s -> Inv (reset_game game_id s).2.
Proof.
  intros HI. destruct (dict_get game_id (games s)) as [g|] eqn:Hg.
  - rewrite (reset_game_run _ g) by done. cbn [snd].
    apply (Inv_deliver _ _ (with_games _ s)); [|done].
    apply Inv_set_game; [done|].
    apply (game_ok_same_roster _ _ g); try done; [by apply HI|].
    apply reset_scores_keys.
  - unfold reset_game, update_game, get_game. mstep. by rewrite Hg.
Qed.

Lemma Inv_question_timeout game_id s : Inv s -> Inv (question_timeout game_id s).2.
Proof.
  intros HI. unfold question_timeout. mstep.
  destruct (dict_get game_id (games s)) as [g|] eqn:Hg; [|done].
  destruct (state g); try done.
  destruct (current_question g) as [q|]; [|done].
  mrun. by apply Inv_deliver.
Qed.

Lemma Inv_handle_answer game_id player_name answer s :
  Inv s -> Inv (handle_answer game_id player_name answer s).2.
Proof.
  intros HI. destruct (dict_get game_id (games s)) as [g|] eqn:Hg.
  - destruct (current_question g) as [q|] eqn:Hq.
    + destruct (decide (answer = Some (meaning q))) as [->|Hne].
      * destruct (dict_get player_name (scores g)) as [v|] eqn:Hv.
        -- rewrite (handle_answer_run_correct _ _ g q v) by done. cbn [snd].
           apply (Inv_deliver _ _ (with_games _ s)); [|done].
           apply Inv_set_game; [done|].
           apply (game_ok_same_roster _ _ g); try done.
           all: try (by apply HI).
           cbn. apply dict_keys_set_present, dict_get_is_Some. by rewrite Hv.
        -- by rewrite (handle_answer_run_unscored _ _ g q).
      * rewrite (handle_answer_run_wrong _ _ _ g q) by done. cbn [snd].
        by apply Inv_deliver.
    + by rewrite (handle_answer_run_idle _ _ _ g).
  - unfold handle_answer, get_game. mstep. by rewrite Hg.
Qed.

Lemma try_except_run_snd {A} (m h : M A) s (P : Server -> Prop) :
  P (m s).2 -> (forall s', P s' -> P (h s').2) -> P (try_except m h s).2.
Proof.
  intros Hm Hh. unfold try_except. destruct (m s) as [[a|] s']; cbn in *; auto.
Qed.

Lemma bind_ret_snd {A B} (m : M A) (b : B) s :
  ((m;; ret b) s).2 = (m s).2.
Proof. rewrite bind_run. by destruct (m s) as [[a|] s']. Qed.

Lemma game_ok_ready conns game_id g player_name p :
  game_ok conns game_id g ->
  dict_get player_name (players g) = Some p ->
  game_ok conns game_id
    (with_players (dict_set player_name (mkPlayer (websocket p) true) (players g)) g).
Proof.
  intros [H1 H2 H3 H4 H5] Hp.
  assert (player_name ∈ dict_keys (players g)) as Hin
    by (apply dict_get_is_Some; by rewrite Hp).
  split; unfold with_players; cbn [players scores state current_question questions];
    try done.
  - by rewrite dict_keys_set_present.
  - by rewrite dict_keys_set_present.
  - intros n p'. rewrite dict_get_set.
    destruct (decide (player_name = n)) as [->|Hne]; [|apply H4].
    intros [= <-]. cbn. by apply H4.
Qed.

Lemma Inv_handle_message w message game_id player_name s :
  Inv s -> Inv (handle_message w message game_id player_name s).2.
Proof.
  intros HI. unfold handle_message. apply try_except_run_snd; [|done].
  destruct message as [|action answer]; [done|]. mstep.
  destruct (dict_get game_id (games s)) as [g|] eqn:Hg; [|done].
  repeat case_bool_decide; try done.
  - destruct (dict_get player_name (players g)) as [p|] eqn:Hp; [|done].
    mrun. apply (Inv_deliver _ _ (with_games _ s)); [|done].
    apply Inv_set_game; [done|]. apply game_ok_ready; [by apply HI|done].
  - rewrite bind_ret_snd. by apply Inv_start_game.
  - by apply Inv_handle_answer.
  - rewrite bind_ret_snd. by apply Inv_reset_game.
Qed.

Lemma Inv_resume k s : Inv s -> Inv (resume k s).2.
Proof.
  intros HI. destruct k as [game_id|game_id]; cbn [resume].
  - by apply Inv_question_timeout.
  - rewrite bind_ret_snd. by apply Inv_next_question.
Qed.

Lemma game_ok_conn_del conns game_id g w :
  game_ok conns game_id g ->
  (forall n p, dict_get n (players g) = Some p -> websocket p <> w) ->
  game_ok (dict_del w conns) game_id g.
Proof.
  intros [H1 H2 H3 H4 H5] Hw. split; try done.
  intros n p Hp. rewrite dict_get_del_ne; [by apply H4|].
  intros Heq. by apply (Hw n p).
Qed.

Lemma game_ok_conn_set conns game_id g w x :
  game_ok conns game_id g ->
  dict_get w conns = None ->
  game_ok (dict_set w x conns) game_id g.
Proof.
  intros [H1 H2 H3 H4 H5] Hw. split; try done.
  intros n p Hp. rewrite dict_get_set_ne; [by apply H4|].
  intros ->. apply H4 in Hp. congruence.
Qed.

Lemma game_ok_left conns game_id g player_name :
  game_ok conns game_id g -> game_ok conns game_id (left_game player_name g).
Proof.
  intros [H1 H2 H3 H4 H5]. split; unfold left_game, with_scores, with_players;
    cbn [players scores state current_question questions]; try done.
  - by apply dict_keys_del_eq.
  - by apply dict_del_NoDup.
  - intros n p Hp. destruct (decide (player_name = n)) as [->|Hne].
    + by rewrite dict_get_del_eq in Hp.
    + rewrite dict_get_del_ne in Hp by done. by apply H4.
Qed.

Lemma Inv_handle_disconnect w s : Inv s -> Inv (handle_disconnect w s).2.
Proof.
  intros HI. destruct (dict_get w (connections s)) as [[game_id player_name]|] eqn:Hw.
  2: { by rewrite handle_disconnect_run_unknown. }
  destruct (inv_conn _ HI _ _ _ Hw) as [g Hg].
  pose proof (inv_game _ HI _ _ Hg) as Hok.
  destruct (dict_mem player_name (players g)) eqn:Hp.
  - assert (dict_mem player_name (scores g) = true) as Hs.
    { rewrite <- Hp. symmetry. apply dict_mem_keys, Hok. }
    rewrite (handle_disconnect_run _ _ _ g) by done. cbn [snd].
    destruct HI as [H1 H2 H3 H4]. split; cbn.
    + intros gid g'. rewrite dict_get_set.
      destruct (decide (game_id = gid)) as [<-|Hne].
      * intros [= <-]. apply game_ok_conn_del; [by apply game_ok_left|].
        unfold left_game; cbn. intros n p Hn Heq.
        destruct (decide (player_name = n)) as [->|Hne].
        -- rewrite dict_get_del_eq in Hn; [done|apply Hok].
        -- rewrite dict_get_del_ne in Hn by done.
           apply (ok_seat _ _ _ Hok) in Hn. rewrite Heq in Hn. congruence.
      * intros Hg'. apply game_ok_conn_del; [by apply H1|].
        intros n p Hn Heq. apply (ok_seat _ _ _ (H1 _ _ Hg')) in Hn.
        rewrite Heq in Hn. congruence.
    + intros w' gid n Hw'. rewrite dict_get_set.
      destruct (decide (game_id = gid)); [done|].
      destruct (decide (w = w')) as [<-|Hne].
      * by rewrite dict_get_del_eq in Hw'.
      * rewrite dict_get_del_ne in Hw' by done. by eapply H2.
    + by apply dict_del_NoDup.
    + rewrite !Forall_app. split_and!; [done|by apply Forall_deliver..].
  - rewrite (handle_disconnect_run_absent _ game_id player_name) by (by rewrite ?Hg).
    cbn [snd]. destruct HI as [H1 H2 H3 H4]. split; cbn.
    + intros gid g' Hg'. apply game_ok_conn_del; [by apply H1|].
      intros n p Hn Heq. pose proof (ok_seat _ _ _ (H1 _ _ Hg') _ _ Hn) as Hc.
      rewrite Heq, Hw in Hc. injection Hc as <- <-.
      rewrite Hg in Hg'. injection Hg' as <-.
      unfold dict_mem in Hp. by rewrite Hn in Hp.
    + intros w' gid n Hw'.
      destruct (decide (w = w')) as [<-|Hne].
      * by rewrite dict_get_del_eq in Hw'.
      * rewrite dict_get_del_ne in Hw' by done. by eapply H2.
    + by apply dict_del_NoDup.
    + done.
Qed.

Lemma split_slash_parts path :
  4 <= length (split_slash path) ->
  exists game_id player_name,
    split_slash path !! 2 = Some game_id /\ split_slash path !! 3 = Some player_name.
Proof.
  intros Hlen.
  destruct (lookup_lt_is_Some_2 (split_slash path) 2) as [a Ha]; [lia|].
  destruct (lookup_lt_is_Some_2 (split_slash path) 3) as [b Hb]; [lia|].
  eauto.
Qed.

Lemma accept_run_short w path s :
  length (split_slash path) < 4 ->
  accept w path s = handle_disconnect w (with_closed (w :: closed s) s).
Proof.
  intros Hlen. unfold accept, try_except. rewrite bind_run.
  by rewrite handle_connection_run_short.
Qed.

Lemma accept_run w path game_id player_name s :
  4 <= length (split_slash path) ->
  split_slash path !! 2 = Some game_id ->
  split_slash path !! 3 = Some player_name ->
  let g := joined w player_name
             (default (new_game player_name) (dict_get game_id (games s))) in
  accept w path s =
  (Ret tt,
   with_outbox (outbox s ++ deliver (state_frame g) (recipients [] (closed s) (players g)))
     (with_connections (dict_set w (game_id, player_name) (connections s))
        (with_games (dict_set game_id g (games s)) s))).
Proof.
  intros Hlen H2 H3 g. unfold accept, try_except. rewrite bind_run.
  by rewrite (handle_connection_run _ _ game_id player_name).
Qed.

Lemma game_ok_new conns game_id player_name : game_ok conns game_id (new_game player_name).
Proof. split; cbn; try done. apply NoDup_nil_2. Qed.

Lemma game_ok_joined conns game_id g w player_name :
  game_ok conns game_id g ->
  dict_get w conns = None ->
  game_ok (dict_set w (game_id, player_name) conns) game_id (joined w player_name g).
Proof.
  intros [H1 H2 H3 H4 H5] Hw. split; unfold joined, with_scores, with_players;
    cbn [players scores state current_question questions]; try done.
  - rewrite !dict_keys_set, (dict_mem_keys _ _ (scores g)) by done.
    rewrite H1. done.
  - by apply dict_set_NoDup.
  - intros n p. rewrite dict_get_set.
    destruct (decide (player_name = n)) as [->|Hne].
    + intros [= <-]. cbn. apply dict_get_set_eq.
    + intros Hp. rewrite dict_get_set_ne; [by apply H4|].
      intros ->. apply H4 in Hp. congruence.
Qed.

Lemma Inv_accept w path s :
  Inv s -> dict_mem w (connections s) = false -> Inv (accept w path s).2.
Proof.
  intros HI Hw. destruct (decide (length (split_slash path) < 4)) as [Hlen|Hlen].
  - rewrite accept_run_short by done. by apply Inv_handle_disconnect, Inv_with_closed.
  - destruct (split_slash_parts path) as (game_id & player_name & H2 & H3); [lia|].
    rewrite (accept_run _ _ game_id player_name) by (done || lia). cbn [snd].
    assert (dict_get w (connections s) = None) as Hnone.
    { unfold dict_mem in Hw. by destruct (dict_get w (connections s)). }
    destruct HI as [H1 H2' H3' H4]. split; cbn.
    + intros gid g'. rewrite dict_get_set.
      destruct (decide (game_id = gid)) as [<-|Hne].
      * intros [= <-]. apply game_ok_joined; [|done].
        destruct (dict_get game_id (games s)) as [g|] eqn:Hg; cbn.
        -- by apply H1.
        -- apply game_ok_new.
      * intros Hg'. apply game_ok_conn_set; [by apply H1|done].
    + intros w' gid n. rewrite !dict_get_set.
      destruct (decide (w = w')) as [<-|Hne].
      * intros [= <- <-]. by rewrite decide_True.
      * intros Hw'. destruct (decide (game_id = gid)); [done|by eapply H2'].
    + by apply dict_set_NoDup.
    + apply Forall_app. split; [done|by apply Forall_deliver].
Qed.

Lemma Inv_step e s s' : Inv s -> step e s = Some s' -> Inv s'.
Proof.
  intros HI. destruct e as [w path|w message|w|w|i|]; cbn [step].
  - destruct (dict_mem w (connections s)) eqn:Hw; [done|].
    destruct (bool_decide (w ∈ closed s)); [done|].
    intros [= <-]. by apply Inv_accept.
  - destruct (dict_get w (connections s)) as [[game_id player_name]|]; [|done].
    destruct (handler_asleep w s); [done|].
    pose proof (Inv_handle_message w message game_id player_name s HI) as HI'.
    destruct (handle_message w message game_id player_name s) as [r s1].
    intros [= <-]. by apply Inv_park.
  - destruct (_ && _); [|done]. intros [= <-]. by apply Inv_with_closed.
  - destruct (_ && _); [|done]. intros [= <-]. by apply Inv_handle_disconnect.
  - destruct (sleeping s !! i) as [sl|]; [|done].
    destruct (bool_decide _); [|done].
    pose proof (Inv_resume (cont sl) _ (Inv_with_sleeping (delete i (sleeping s)) s HI)) as HI'.
    destruct (resume _ _) as [r s1].
    intros [= <-]. by apply Inv_park.
  - destruct (forallb _ _); [|done]. intros [= <-]. by apply Inv_with_now.
Qed.

Lemma Inv_empty r : Inv (empty_server r).
Proof. split; cbn; try done. apply NoDup_nil_2. Qed.

Lemma reachable_Inv s : reachable s -> Inv s.
Proof.
  induction 1 as [r|s e s' _ IH Hstep]; [apply Inv_empty|by eapply Inv_step].
Qed.

Lemma reachable_run es s s' : reachable s -> run es s = Some s' -> reachable s'.
Proof.
  revert s. induction es as [|e es IH]; intros s Hs; cbn [run].
  - by intros [= <-].
  - destruct (step e s) as [s1|] eqn:Hstep; [|done].
    intros Hrun. apply (IH s1); [|done]. by eapply reachable_step.
Qed.

(** ** The dispatch of [handle_message] *)

Ltac dispatch :=
  repeat match goal with
         | |- context [bool_decide (Some ?a = Some ?b)] =>
             first [ rewrite (bool_decide_eq_true_2 (Some a = Some b)) by reflexivity
                   | rewrite (bool_decide_eq_false_2 (Some a = Some b)) by discriminate ]
         end.

Lemma handle_message_submit_run w answer game_id player_name g s :
  dict_get game_id (games s) = Some g ->
  handle_message w (Request (Some "submit_answer") answer) game_id player_name s =
  try_except (handle_answer game_id player_name answer) (ret Done) s.
Proof.
  intros Hg. unfold handle_message, try_except. mstep. by rewrite Hg.
Qed.

Lemma handle_message_start_run w answer game_id player_name g s :
  dict_get game_id (games s) = Some g ->
  handle_message w (Request (Some "start_game") answer) game_id player_name s =
  if bool_decide (player_name = host g)
  then try_except (start_game game_id;; ret Done) (ret Done) s
  else (Ret Done, s).
Proof.
  intros Hg. unfold handle_message, try_except. mstep. rewrite Hg.
  dispatch. by case_bool_decide.
Qed.

Lemma handle_message_again_run w answer game_id player_name g s :
  dict_get game_id (games s) = Some g ->
  handle_message w (Request (Some "play_again") answer) game_id player_name s =
  if bool_decide (player_name = host g)
  then try_except (reset_game game_id;; ret Done) (ret Done) s
  else (Ret Done, s).
Proof.
  intros Hg. unfold handle_message, try_except. mstep. rewrite Hg.
  dispatch. by case_bool_decide.
Qed.

(** ** Players and scores (C4) *)

(** C4: in every reachable state of the server, that is after any
    connect, message, disconnect, start, advance, end or reset, the
    players dictionary and the scores dictionary of every session have
    the same keys (even in the same order). *)
Theorem C4_players_scores_same_keys s game_id g :
  reachable s ->
  dict_get game_id (games s) = Some g ->
  dict_keys (players g) = dict_keys (scores g) /\
  forall n, dict_mem n (players g) = dict_mem n (scores g).
Proof.
  intros Hr Hg. pose proof (inv_game _ (reachable_Inv _ Hr) _ _ Hg) as Hok.
  split; [apply Hok|]. intros n. apply dict_mem_keys, Hok.
Qed.

Lemma reachable_after es :
  match run es (empty_server []) with Some _ => True | None => False end ->
  reachable (after es).
Proof.
  unfold after. destruct (run es (empty_server [])) as [s|] eqn:Hrun; [|done].
  intros _. apply (reachable_run es (empty_server [])); [apply reachable_init|done].
Qed.

Lemma reachable_round1 : reachable round1.
Proof. apply (reachable_after opening). by vm_compute. Qed.

Lemma C4_witness :
  reachable round1 /\
  dict_get "ABC123" (games round1) = Some round1_game /\
  dict_keys (players round1_game) = dict_keys (scores round1_game) /\
  forall n, dict_mem n (players round1_game) = dict_mem n (scores round1_game).
Proof.
  split; [exact reachable_round1|]. split; [reflexivity|].
  exact (C4_players_scores_same_keys round1 "ABC123" round1_game
           reachable_round1 eq_refl).
Defined.

(** ** Scoring an answer (C5) *)

(** C5: while a question is active, a submitted string equal to the
    stored meaning adds exactly 10 to the submitter's score and leaves
    every other score as it was; any other string leaves all scores (the
    whole [games] dictionary) unchanged; with no active question the
    submission changes nothing at all and schedules nothing. *)
Theorem C5_exact_match_scoring w game_id player_name g s (answer : string) :
  dict_get game_id (games s) = Some g ->
  let r := handle_message w (submit answer) game_id player_name s in
  (forall q v, current_question g = Some q -> answer = meaning q ->
     dict_get player_name (scores g) = Some v ->
     exists g', dict_get game_id (games r.2) = Some g' /\
       dict_get player_name (scores g') = Some (v + 10)%Z /\
       forall n, n <> player_name -> dict_get n (scores g') = dict_get n (scores g)) /\
  (forall q, current_question g = Some q -> answer <> meaning q ->
     games r.2 = games s) /\
  (current_question g = None -> r = (Ret Done, s)).
Proof.
  intros Hg r. subst r. unfold submit.
  rewrite (handle_message_submit_run _ _ _ _ g) by done. unfold try_except.
  split_and!.
  - intros q v Hq -> Hv. rewrite (handle_answer_run_correct _ _ g q v) by done.
    eexists. cbn. split; [apply dict_get_set_eq|]. cbn. split.
    + apply dict_get_set_eq.
    + intros n Hn. by apply dict_get_set_ne.
  - intros q Hq Hne. rewrite (handle_answer_run_wrong _ _ _ g q); [done..|congruence].
  - intros Hq. by rewrite (handle_answer_run_idle _ _ _ g).
Qed.

Lemma C5_witness :
  dict_get "ABC123" (games round1) = Some round1_game /\
  exists g',
    dict_get "ABC123"
      (games (handle_message 2 (submit "friendly greeting; hey/what's up")
                "ABC123" "Bob" round1).2) = Some g' /\
    dict_get "Bob" (scores g') = Some 10%Z /\
    forall n, n <> "Bob" -> dict_get n (scores g') = dict_get n (scores round1_game).
Proof.
  split; [reflexivity|].
  destruct (C5_exact_match_scoring 2 "ABC123" "Bob" round1_game round1
              "friendly greeting; hey/what's up" eq_refl) as (Hright & _ & _).
  exact (Hright awe 0%Z eq_refl eq_refl eq_refl).
Defined.

(** ** The end of the game (C7) *)




Lemma reachable_last_round : reachable last_round.
Proof. apply (reachable_after full_game). by vm_compute. Qed.


(** Alice and Bob are level at 10 points; Alice, first in the scores
    dictionary, is named. *)
Example tie_goes_to_first_player :
  scores last_round_game = [("Alice", 10%Z); ("Bob", 10%Z)] /\
  winner_of (scores last_round_game) = Some "Alice".
Proof. split; reflexivity. Qed.

(** ** The frames of a round (C6) *)

(** C6: every [new_question] frame the server ever sends shows the bank
    item of its round (the bank's items have three distractors each):
    exactly four choices, the correct meaning among them exactly once,
    and the choices are a rearrangement of the meaning and the first
    three distractors of that item. *)
Theorem C6_choices_of_a_round s w t choices time_limit question_number :
  reachable s ->
  (w, MNewQuestion t choices time_limit question_number) ∈ outbox s ->
  exists q,
    1 <= question_number /\
    load_questions !! (question_number - 1) = Some q /\
    t = term q /\
    length choices = 4 /\
    length (filter (fun c => c = meaning q) choices) = 1 /\
    choices ≡ₚ meaning q :: take 3 (distractors q).
Proof.
  intros Hr Hin. pose proof (inv_out _ (reachable_Inv _ Hr)) as Hout.
  rewrite Forall_forall in Hout. apply (Hout _ Hin).
Qed.

Lemma C6_witness :
  reachable round1 /\
  (1, MNewQuestion "awe"
        ["goodbye"; "please"; "thank you"; "friendly greeting; hey/what's up"] 20 1)
    ∈ outbox round1 /\
  exists q,
    1 <= 1 /\
    load_questions !! (1 - 1) = Some q /\
    "awe" = term q /\
    length ["goodbye"; "please"; "thank you"; "friendly greeting; hey/what's up"] = 4 /\
    length (filter (fun c => c = meaning q)
              ["goodbye"; "please"; "thank you"; "friendly greeting; hey/what's up"]) = 1 /\
    ["goodbye"; "please"; "thank you"; "friendly greeting; hey/what's up"]
      ≡ₚ meaning q :: take 3 (distractors q).
Proof.
  assert ((1, MNewQuestion "awe"
                ["goodbye"; "please"; "thank you"; "friendly greeting; hey/what's up"] 20 1)
            ∈ outbox round1) as Hin.
  { apply list_elem_of_lookup. exists 3. reflexivity. }
  split; [exact reachable_round1|]. split; [exact Hin|].
  exact (C6_choices_of_a_round round1 1 "awe" _ 20 1 reachable_round1 Hin).
Defined.

Lemma filter_eq_absent (x : string) (l : list string) :
  x ∉ l -> filter (fun c => c = x) l = [].
Proof.
  intros Hnotin. destruct (filter (fun c => c = x) l) as [|y l'] eqn:Hf; [done|].
  assert (y ∈ filter (fun c => c = x) l) as Hy by (rewrite Hf; left).
  apply list_elem_of_filter in Hy as [-> Hy]. done.
Qed.

(** What [next_question] sends for any bank item: as many choices as the
    meaning plus the first three distractors, rearranged; four of them
    when the item has at least three distractors, and the meaning among
    them once when it is not itself one of those distractors. *)
Lemma next_question_choices game_id g question s :
  dict_get game_id (games s) = Some g ->
  questions g !! question_index g = Some question ->
  3 <= length (distractors question) ->
  exists choices s',
    next_question game_id s = (Ret tt, s') /\
    outbox s' = outbox s ++ deliver
                  (MNewQuestion (term question) choices 20 (question_index g + 1))
                  (recipients [] (closed s) (players g)) /\
    length choices = 4 /\
    choices ≡ₚ meaning question :: take 3 (distractors question) /\
    (meaning question ∉ take 3 (distractors question) ->
     length (filter (fun c => c = meaning question) choices) = 1).
Proof.
  intros Hg Hq Hlen.
  destruct (next_question_run _ _ _ _ Hg Hq) as (choices & r & Hp & ->).
  exists choices. eexists. split; [reflexivity|]. cbn. split_and!; [done| |done|].
  - rewrite Hp. cbn. rewrite length_take. lia.
  - intros Hnotin. rewrite Hp, filter_cons_True by done.
    by rewrite filter_eq_absent.
Qed.

(** ** Joining under a name that is taken (C9) *)

(** C9: when a new connection names a player who is already in the
    session, whatever the session's state and the player's score, the
    stored connection handle becomes the new websocket, the ready flag
    becomes false and the score becomes 0; nothing else of the game
    changes and the roster keeps its keys. *)
Theorem C9_rejoin_overwrites w path game_id player_name g p s :
  4 <= length (split_slash path) ->
  split_slash path !! 2 = Some game_id ->
  split_slash path !! 3 = Some player_name ->
  dict_mem w (connections s) = false ->
  w ∉ closed s ->
  dict_get game_id (games s) = Some g ->
  dict_get player_name (players g) = Some p ->
  exists s' g',
    step (Connect w path) s = Some s' /\
    dict_get game_id (games s') = Some g' /\
    dict_get player_name (players g') = Some (mkPlayer w false) /\
    dict_get player_name (scores g') = Some 0%Z /\
    dict_keys (players g') = dict_keys (players g) /\
    state g' = state g /\
    current_question g' = current_question g /\
    question_index g' = question_index g /\
    dict_get w (connections s') = Some (game_id, player_name).
Proof.
  intros Hlen H2 H3 Hw Hopen Hg Hp. cbn [step]. rewrite Hw.
  rewrite bool_decide_eq_false_2 by done. cbn [orb].
  rewrite (accept_run _ _ game_id player_name) by done. rewrite Hg. cbn.
  eexists _, _. split; [reflexivity|].
  split; [apply dict_get_set_eq|]. cbn. split_and!; try done.
  - apply dict_get_set_eq.
  - apply dict_get_set_eq.
  - apply dict_keys_set_present, dict_get_is_Some. by rewrite Hp.
  - apply dict_get_set_eq.
Qed.

Lemma C9_witness :
  dict_get "Bob" (scores round2_game) = Some 10%Z /\
  state round2_game = playing /\
  exists s' g',
    step (Connect 3 "/ws/ABC123/Bob") round2 = Some s' /\
    dict_get "ABC123" (games s') = Some g' /\
    dict_get "Bob" (players g') = Some (mkPlayer 3 false) /\
    dict_get "Bob" (scores g') = Some 0%Z /\
    dict_keys (players g') = dict_keys (players round2_game) /\
    state g' = state round2_game /\
    current_question g' = current_question round2_game /\
    question_index g' = question_index round2_game /\
    dict_get 3 (connections s') = Some ("ABC123", "Bob").
Proof.
  split; [reflexivity|]. split; [reflexivity|].
  apply (C9_rejoin_overwrites 3 "/ws/ABC123/Bob" "ABC123" "Bob" round2_game
           (mkPlayer 2 false) round2).
  - vm_compute. lia.
  - reflexivity.
  - reflexivity.
  - reflexivity.
  - vm_compute. intros H. inversion H.
  - reflexivity.
  - reflexivity.
Defined.

(** ** The host's actions (C10) *)

(** C10: [start_game] and [play_again] look only at the sender's name.
    From the host, in whatever lifecycle state the session is,
    [start_game] makes the state [playing], restarts at the first bank
    item (question index 0, advanced to 1 by the round it opens), zeroes
    every score and sends round 1 to every open player; [play_again]
    makes the state [lobby], clears the current question, resets the
    index and zeroes every score.  From anybody else both do nothing. *)
Theorem C10_host_actions_ignore_state w game_id player_name g answer s :
  reachable s ->
  dict_get w (connections s) = Some (game_id, player_name) ->
  handler_asleep w s = false ->
  dict_get game_id (games s) = Some g ->
  (player_name = host g ->
   (exists s' g' choices,
      step (Receive w (Request (Some "start_game") answer)) s = Some s' /\
      dict_get game_id (games s') = Some g' /\
      state g' = playing /\
      current_question g' = load_questions !! 0 /\
      question_index g' = 1 /\
      dict_keys (scores g') = dict_keys (scores g) /\
      (forall n v, (n, v) ∈ scores g' -> v = 0%Z) /\
      players g' = players g /\
      outbox s' = outbox s ++ deliver (MNewQuestion "awe" choices 20 1)
                                (recipients [] (closed s) (players g)) /\
      sleeping s' = sleeping s ++ [mkSleeper (now s + 20) None (KTimeout game_id)]) /\
   (exists s' g',
      step (Receive w (Request (Some "play_again") answer)) s = Some s' /\
      dict_get game_id (games s') = Some g' /\
      state g' = lobby /\
      current_question g' = None /\
      question_index g' = 0 /\
      dict_keys (scores g') = dict_keys (scores g) /\
      (forall n v, (n, v) ∈ scores g' -> v = 0%Z) /\
      players g' = players g /\
      outbox s' = outbox s ++ deliver (state_frame g')
                                (recipients [] (closed s) (players g)))) /\
  (player_name <> host g ->
   step (Receive w (Request (Some "start_game") answer)) s = Some s /\
   step (Receive w (Request (Some "play_again") answer)) s = Some s).
Proof.
  intros Hr Hw Hawake Hg.
  pose proof (inv_game _ (reachable_Inv _ Hr) _ _ Hg) as Hok.
  assert (NoDup (dict_keys (scores g))) as Hnd
    by (rewrite <- (ok_keys _ _ _ Hok); apply Hok).
  split.
  - intros Hhost. split.
    + cbn [step]. rewrite Hw, Hawake.
      rewrite (handle_message_start_run _ _ _ _ g) by done.
      rewrite bool_decide_eq_true_2 by done. unfold try_except. rewrite bind_run.
      rewrite (start_game_run _ g) by done.
      assert (questions (started g) !! question_index (started g) = Some awe) as Hq.
      { cbn. by rewrite (ok_bank _ _ _ Hok). }
      destruct (next_question_run game_id (started g) awe
                  (with_games (dict_set game_id (started g) (games s)) s)
                  (dict_get_set_eq _ _ _) Hq) as (choices & r & Hp & ->).
      eexists _, _, choices. split; [reflexivity|].
      split; [cbn; rewrite dict_set_set; apply dict_get_set_eq|]. cbn.
      split_and!; try done.
      * apply reset_scores_keys.
      * intros n v. by apply reset_scores_zero.
    + cbn [step]. rewrite Hw, Hawake.
      rewrite (handle_message_again_run _ _ _ _ g) by done.
      rewrite bool_decide_eq_true_2 by done. unfold try_except. rewrite bind_run.
      rewrite (reset_game_run _ g) by done.
      eexists _, _. split; [reflexivity|].
      split; [apply dict_get_set_eq|]. cbn.
      split_and!; try done.
      * apply reset_scores_keys.
      * intros n v. by apply reset_scores_zero.
  - intros Hne. cbn [step]. rewrite Hw, Hawake.
    rewrite (handle_message_start_run _ _ _ _ g),
            (handle_message_again_run _ _ _ _ g) by done.
    rewrite bool_decide_eq_false_2 by done. done.
Qed.

Lemma reachable_game_over : reachable game_over.
Proof. apply (reachable_after (full_game ++ [Wake 3])). by vm_compute. Qed.

Lemma C10_witness :
  reachable game_over /\
  dict_get 1 (connections game_over) = Some ("ABC123", "Alice") /\
  dict_get "ABC123" (games game_over) = Some game_over_game /\
  state game_over_game = finished /\
  (exists s' g' choices,
      step (Receive 1 (Request (Some "start_game") None)) game_over = Some s' /\
      dict_get "ABC123" (games s') = Some g' /\
      state g' = playing /\
      current_question g' = load_questions !! 0 /\
      question_index g' = 1 /\
      dict_keys (scores g') = dict_keys (scores game_over_game) /\
      (forall n v, (n, v) ∈ scores g' -> v = 0%Z) /\
      players g' = players game_over_game /\
      outbox s' = outbox game_over ++ deliver (MNewQuestion "awe" choices 20 1)
                    (recipients [] (closed game_over) (players game_over_game)) /\
      sleeping s' = sleeping game_over
                    ++ [mkSleeper (now game_over + 20) None (KTimeout "ABC123")]) /\
  (exists s' g',
      step (Receive 1 (Request (Some "play_again") None)) game_over = Some s' /\
      dict_get "ABC123" (games s') = Some g' /\
      state g' = lobby /\
      current_question g' = None /\
      question_index g' = 0 /\
      dict_keys (scores g') = dict_keys (scores game_over_game) /\
      (forall n v, (n, v) ∈ scores g' -> v = 0%Z) /\
      players g' = players game_over_game /\
      outbox s' = outbox game_over ++ deliver (state_frame g')
                    (recipients [] (closed game_over) (players game_over_game))).
Proof.
  split; [exact reachable_game_over|]. do 3 (split; [reflexivity|]).
  destruct (C10_host_actions_ignore_state 1 "ABC123" "Alice" game_over_game None
              game_over reachable_game_over eq_refl eq_refl eq_refl) as [Hhost _].
  exact (Hhost eq_refl).
Defined.

(** ** Several answers in one round (C3) *)

(** The reading of "only the first answer counts" fails at the state
    where Alice has answered: Bob's answer changes a score. *)
Lemma later_answer_not_inert :
  ~ later_answer_inert alice_answered 2 "friendly greeting; hey/what's up".
Proof.
  intros Hinert.
  destruct (Hinert "ABC123" "Bob"
              (default alice_answered
                 (step (Receive 2 (submit "friendly greeting; hey/what's up"))
                       alice_answered))) as [Hsc _].
  - reflexivity.
  - exists (mkSleeper 4 (Some 1) (KAdvance "ABC123")). split_and!.
    + apply list_elem_of_lookup. by exists 1.
    + by eexists.
    + reflexivity.
  - reflexivity.
  - vm_compute in Hsc. discriminate Hsc.
Qed.

(** C3 on the code: [handle_answer] keeps no record of who has answered
    the round.  In round 1 Alice answers wrongly at time 1 and both
    players are sent the [answer_result] that carries the correct
    answer; Bob then submits that answer in the grace delay and is
    given 10 points, and a second advance goes to sleep beside the
    first.  At time 4 the first advance opens round 2 and the second
    one opens round 3 at once: question 2 is on show for no time at all
    and its timeout is left behind. *)
Theorem C3_later_answer_scored_and_advances_again :
  (fun s => (round_view "ABC123" s, scores (game_in "ABC123" s), sleeping s,
             drop 5 (outbox s)))
    <$> run (opening ++ [Tick; Receive 1 (submit "nope")]) (empty_server [])
    = Some ((1, playing, 1, Some "awe"), [("Alice", 0%Z); ("Bob", 0%Z)],
            [mkSleeper 20 None (KTimeout "ABC123");
             mkSleeper 4 (Some 1) (KAdvance "ABC123")],
            [(1, MAnswerResult "Alice" false "friendly greeting; hey/what's up");
             (2, MAnswerResult "Alice" false "friendly greeting; hey/what's up")]) /\
  (fun s => (round_view "ABC123" s, scores (game_in "ABC123" s), sleeping s,
             drop 7 (outbox s)))
    <$> run two_answers (empty_server [])
    = Some ((1, playing, 1, Some "awe"), [("Alice", 0%Z); ("Bob", 10%Z)],
            [mkSleeper 20 None (KTimeout "ABC123");
             mkSleeper 4 (Some 1) (KAdvance "ABC123");
             mkSleeper 4 (Some 2) (KAdvance "ABC123")],
            [(1, MAnswerResult "Bob" true "friendly greeting; hey/what's up");
             (2, MAnswerResult "Bob" true "friendly greeting; hey/what's up")]) /\
  (fun s => (round_view "ABC123" s, sleeping s))
    <$> run (two_answers ++ ticks 3 ++ [Wake 1]) (empty_server [])
    = Some ((4, playing, 2, Some "braai"),
            [mkSleeper 20 None (KTimeout "ABC123");
             mkSleeper 4 (Some 2) (KAdvance "ABC123");
             mkSleeper 24 None (KTimeout "ABC123")]) /\
  (fun s => (round_view "ABC123" s, sleeping s))
    <$> run (two_answers ++ ticks 3 ++ [Wake 1; Wake 1]) (empty_server [])
    = Some ((4, playing, 3, Some "howzit"),
            [mkSleeper 20 None (KTimeout "ABC123");
             mkSleeper 24 None (KTimeout "ABC123");
             mkSleeper 24 None (KTimeout "ABC123")]).
Proof. split_and!; by vm_compute. Qed.

(** ** The end of a connection (C8) *)






(** ** Answer against timeout (C1) *)

(** C1 on the code: both triggers of round 1 advance the session.  In
    [race] the timeout finds round 1 still on show, passes its guard and
    goes to sleep beside the answer's advance; the answer's advance
    opens round 2 at time 22 and the timeout's advance opens round 3 at
    time 23.  In [stale] the timeout of round 1 fires during round 2,
    passes its guard all the same, announces the answer of round 2 and
    opens round 3 at time 23, when round 2 has run 15 of its 20 units. *)
Theorem C1_answer_and_timeout_both_advance :
  (round_view "ABC123" <$> run race (empty_server [])
     = Some (20, playing, 1, Some "awe") /\
   sleeping <$> run race (empty_server [])
     = Some [mkSleeper 22 (Some 2) (KAdvance "ABC123");
             mkSleeper 23 None (KAdvance "ABC123")] /\
   round_view "ABC123" <$> run (race ++ [Tick; Tick; Wake 0]) (empty_server [])
     = Some (22, playing, 2, Some "braai") /\
   round_view "ABC123" <$> run (race ++ [Tick; Tick; Wake 0; Tick; Wake 0]) (empty_server [])
     = Some (23, playing, 3, Some "howzit")) /\
  (round_view "ABC123" <$> run (opening ++ ticks 5 ++ [Receive 2 (submit "nope")]
                                 ++ ticks 3 ++ [Wake 1]) (empty_server [])
     = Some (8, playing, 2, Some "braai") /\
   (fun s => (round_view "ABC123" s, sleeping s, last (outbox s)))
     <$> run stale (empty_server [])
     = Some ((20, playing, 2, Some "braai"),
             [mkSleeper 28 None (KTimeout "ABC123");
              mkSleeper 23 None (KAdvance "ABC123")],
             Some (2, MAnswerResult "System" false "barbecue; cook meat over coals")) /\
   round_view "ABC123" <$> run (stale ++ ticks 3 ++ [Wake 1]) (empty_server [])
     = Some (23, playing, 3, Some "howzit")).
Proof. split; split_and!; by vm_compute. Qed.

(** ** The current question outside a round (C2) *)

(** [end_game] sets the state and leaves the current question. *)
Lemma end_game_keeps_question game_id g s :
  dict_get game_id (games s) = Some g ->
  exists g', dict_get game_id (games (end_game game_id s).2) = Some g' /\
    state g' = finished /\ current_question g' = current_question g.
Proof.
  intros Hg. rewrite (end_game_run _ g) by done. eexists.
  split; [apply dict_get_set_eq|done].
Qed.

(** One half of the invariant does hold: a session that is [playing]
    has a current question. *)
Lemma playing_has_question s game_id g :
  reachable s -> dict_get game_id (games s) = Some g ->
  state g = playing -> is_Some (current_question g).
Proof.
  intros Hr Hg. apply (inv_game _ (reachable_Inv _ Hr) _ _ Hg).
Qed.

(** C2 on the code: after the last advance of a full game the session
    is [finished] and still holds the last bank item as its current
    question, so that an answer sent then is scored (Bob goes from 10 to
    20); and a session reset to [lobby] while an answer's advance is
    asleep gets a current question again when the advance wakes. *)
Theorem C2_question_outside_a_round :
  (round_view "ABC123" <$> run (full_game ++ [Wake 3]) (empty_server [])
     = Some (12, finished, 3, Some "howzit") /\
   (fun s => (round_view "ABC123" s, scores (game_in "ABC123" s)))
     <$> run (full_game ++ [Wake 3; Receive 2 (submit "hello; how are you?")])
             (empty_server [])
     = Some ((12, finished, 3, Some "howzit"), [("Alice", 10%Z); ("Bob", 20%Z)])) /\
  (round_view "ABC123"
     <$> run (opening ++ [Tick; Receive 2 (submit "nope"); Tick;
                          Receive 1 (act "play_again")]) (empty_server [])
     = Some (2, lobby, 0, None) /\
   round_view "ABC123"
     <$> run (opening ++ [Tick; Receive 2 (submit "nope"); Tick;
                          Receive 1 (act "play_again"); Tick; Tick; Wake 1])
             (empty_server [])
     = Some (4, lobby, 1, Some "awe")).
Proof. split; split_and!; by vm_compute. Qed.


(** * More of the server *)

(** ** Dictionaries, continued *)

Lemma dict_set_same {K V} `{EqDecision K} (k : K) (v : V) d :
  dict_get k d = Some v -> dict_set k v d = d.
Proof.
  induction d as [|[k0 v0] d IH]; simpl; [done|].
  destruct (decide (k = k0)) as [->|Hne].
  - by intros [= ->].
  - intros Hg. by rewrite IH.
Qed.

Lemma dict_set_fresh {K V} `{EqDecision K} (k : K) (v : V) d :
  dict_get k d = None -> dict_set k v d = d ++ [(k, v)].
Proof.
  induction d as [|[k0 v0] d IH]; simpl; [done|].
  destruct (decide (k = k0)) as [->|Hne]; [done|].
  intros Hg. by rewrite IH.
Qed.

Lemma dict_del_set_fresh {K V} `{EqDecision K} (k : K) (v : V) d :
  dict_get k d = None -> dict_del k (dict_set k v d) = d.
Proof.
  induction d as [|[k0 v0] d IH]; simpl.
  - by rewrite decide_True.
  - destruct (decide (k = k0)) as [->|Hne]; [done|].
    intros Hg. simpl. by rewrite decide_False, IH.
Qed.

Lemma dict_set_elem {K V} `{EqDecision K} (k k' : K) (v v' : V) d :
  (k', v') ∈ dict_set k v d -> (k' = k /\ v' = v) \/ (k', v') ∈ d.
Proof.
  induction d as [|[k0 v0] d IH]; simpl.
  - intros [= -> ->]%list_elem_of_singleton. by left.
  - destruct (decide (k = k0)) as [->|Hne].
    + intros [[= -> ->]|Hin]%elem_of_cons; [by left|right; by right].
    + intros [Heq|Hin]%elem_of_cons; [right; rewrite Heq; left|].
      destruct (IH Hin) as [?|?]; [by left|right; by right].
Qed.

Lemma dict_del_elem {K V} `{EqDecision K} (k : K) (x : K * V) d :
  x ∈ dict_del k d -> x ∈ d.
Proof.
  induction d as [|[k0 v0] d IH]; simpl; [done|].
  destruct (decide (k = k0)) as [->|Hne].
  - by right.
  - intros [->|Hin]%elem_of_cons; [left|right; by apply IH].
Qed.

Lemma reset_scores_elem_gen (ks : list string) (sc : list (string * Z)) k v :
  (k, v) ∈ foldl (fun d player => dict_set player 0%Z d) sc ks ->
  v = 0%Z \/ (k, v) ∈ sc.
Proof.
  revert sc. induction ks as [|k0 ks IH]; intros sc; simpl; [by right|].
  intros Hin. destruct (IH _ Hin) as [?|Hin']; [by left|].
  apply dict_set_elem in Hin' as [[_ ->]|?]; [by left|by right].
Qed.

Lemma reset_scores_elem sc k v : (k, v) ∈ reset_scores sc -> v = 0%Z \/ (k, v) ∈ sc.
Proof. apply reset_scores_elem_gen. Qed.

(** ** The effect of every method *)

Lemma deliver_recipients f message exclude cl (ps : list (string * Player)) :
  f ∈ deliver message (recipients exclude cl ps) ->
  (f.1 ∉ cl) /\ (f.1 ∉ exclude) /\ exists n p, (n, p) ∈ ps /\ websocket p = f.1.
Proof.
  unfold deliver, recipients. intros Hin.
  apply list_elem_of_fmap in Hin as (w & -> & Hw).
  apply list_elem_of_filter in Hw as [[Hex Hcl] Hw].
  apply list_elem_of_fmap in Hw as ([n p] & -> & Hp).
  split_and!; [done..|]. by exists n, p.
Qed.

Lemma effect_same game_id cl s s' :
  games s' = games s -> outbox s' = outbox s -> effect game_id cl s s'.
Proof.
  intros Hg Ho. split; [|by left].
  exists []. rewrite app_nil_r. split; [done|]. by intros f ?%elem_of_nil.
Qed.

Lemma effect_frames game_id cl s s' g extra :
  dict_get game_id (games s) = Some g ->
  games s' = games s ->
  outbox s' = outbox s ++ extra ->
  (forall f, f ∈ extra ->
     (f.1 ∉ cl) /\ exists n p, (n, p) ∈ players g /\ websocket p = f.1) ->
  effect game_id cl s s'.
Proof.
  intros Hg Hgs Ho Hf. split; [|by left].
  exists extra. split; [done|]. intros f Hin.
  destruct (Hf f Hin) as (Hcl & n & p & Hp & Hw). split; [done|].
  exists g, n, p. by rewrite Hgs.
Qed.

Lemma effect_move game_id cl s s' g' extra :
  games s' = dict_set game_id g' (games s) ->
  match dict_get game_id (games s) with
  | Some g => game_move g g'
  | None => exists w n, g' = joined w n (new_game n)
  end ->
  outbox s' = outbox s ++ extra ->
  (forall f, f ∈ extra ->
     (f.1 ∉ cl) /\ exists n p, (n, p) ∈ players g' /\ websocket p = f.1) ->
  effect game_id cl s s'.
Proof.
  intros Hgs Hm Ho Hf. split; [|right; by exists g'].
  exists extra. split; [done|]. intros f Hin.
  destruct (Hf f Hin) as (Hcl & n & p & Hp & Hw). split; [done|].
  exists g', n, p. rewrite Hgs. by rewrite dict_get_set_eq.
Qed.

(** The effect does not read the sleepers, the clock, the generator or
    the registry. *)
Lemma effect_pre game_id cl s0 s s' :
  games s0 = games s -> outbox s0 = outbox s ->
  effect game_id cl s0 s' -> effect game_id cl s s'.
Proof. unfold effect. intros -> ->. done. Qed.

Lemma effect_post game_id cl s s1 s' :
  games s' = games s1 -> outbox s' = outbox s1 ->
  effect game_id cl s s1 -> effect game_id cl s s'.
Proof. unfold effect, seated. intros -> ->. done. Qed.

Lemma effect_park game_id cl o r s s1 :
  effect game_id cl s s1 -> effect game_id cl s (park o r s1).
Proof.
  apply effect_post; by destruct r as [[|delay k]|].
Qed.

Ltac frames_ok :=
  let f := fresh "f" in
  let Hin := fresh "Hin" in
  intros f Hin;
  repeat match goal with
         | H : _ ∈ _ ++ _ |- _ => apply elem_of_app in H as [H|H]
         end;
  match goal with
  | H : _ ∈ deliver _ (recipients _ _ _) |- _ =>
      apply deliver_recipients in H as (? & ? & ?); by split
  end.

Lemma effect_unknown_game {A} (m : M A) game_id cl s :
  dict_get game_id (games s) = None ->
  (forall s0, dict_get game_id (games s0) = None -> (m s0).2 = s0) ->
  effect game_id cl s (m s).2.
Proof. intros Hg Hm. rewrite Hm by done. by apply effect_same. Qed.

Lemma next_question_effect game_id s :
  effect game_id (closed s) s (next_question game_id s).2.
Proof.
  destruct (dict_get game_id (games s)) as [g|] eqn:Hg.
  - destruct (questions g !! question_index g) as [q|] eqn:Hq.
    + destruct (next_question_run _ _ _ _ Hg Hq) as (choices & r & Hp & ->).
      cbn [snd].
      eapply (effect_move _ _ _ _ (advanced q g)); [reflexivity| |reflexivity|].
      * rewrite Hg. by apply move_advance.
      * frames_ok.
    + apply lookup_ge_None in Hq.
      rewrite (next_question_run_end _ g), (end_game_run _ g) by done. cbn [snd].
      eapply (effect_move _ _ _ _ (with_state finished g)); [reflexivity| |reflexivity|].
      * rewrite Hg. by apply move_finish.
      * frames_ok.
  - apply effect_unknown_game; [done|]. intros s0 Hg0.
    unfold next_question, get_game. mstep. by rewrite Hg0.
Qed.

Lemma start_game_effect game_id s :
  Inv s -> effect game_id (closed s) s (start_game game_id s).2.
Proof.
  intros HI. destruct (dict_get game_id (games s)) as [g|] eqn:Hg.
  - rewrite (start_game_run _ g) by done.
    pose proof (inv_game _ HI _ _ Hg) as Hok.
    assert (questions (started g) !! question_index (started g) = Some awe) as Hq.
    { cbn. by rewrite (ok_bank _ _ _ Hok). }
    destruct (next_question_run game_id (started g) awe
                (with_games (dict_set game_id (started g) (games s)) s)
                (dict_get_set_eq _ _ _) Hq) as (choices & r & Hp & ->).
    cbn [snd].
    eapply (effect_move _ _ _ _ (advanced awe (started g))); [|  |reflexivity|].
    + cbn. by rewrite dict_set_set.
    + rewrite Hg. apply move_start. by rewrite (ok_bank _ _ _ Hok).
    + frames_ok.
  - apply effect_unknown_game; [done|]. intros s0 Hg0.
    unfold start_game, update_game, get_game. mstep. by rewrite Hg0.
Qed.

Lemma reset_game_effect game_id s :
  effect game_id (closed s) s (reset_game game_id s).2.
Proof.
  destruct (dict_get game_id (games s)) as [g|] eqn:Hg.
  - rewrite (reset_game_run _ g) by done. cbn [snd].
    eapply (effect_move _ _ _ _ (reset g)); [reflexivity| |reflexivity|].
    + rewrite Hg. apply move_reset.
    + frames_ok.
  - apply effect_unknown_game; [done|]. intros s0 Hg0.
    unfold reset_game, update_game, get_game. mstep. by rewrite Hg0.
Qed.

Lemma question_timeout_effect game_id s :
  effect game_id (closed s) s (question_timeout game_id s).2.
Proof.
  destruct (dict_get game_id (games s)) as [g|] eqn:Hg.
  - destruct (decide (state g = playing)) as [Hst|Hst].
    + destruct (current_question g) as [q|] eqn:Hq.
      * rewrite (question_timeout_run_fire _ g q) by done. cbn [snd].
        eapply (effect_frames _ _ _ _ g); [done|reflexivity|reflexivity|]. frames_ok.
      * rewrite question_timeout_run_stale; [by apply effect_same|].
        rewrite Hg. by right.
    + rewrite question_timeout_run_stale; [by apply effect_same|].
      rewrite Hg. by left.
  - rewrite question_timeout_run_stale; [by apply effect_same|]. by rewrite Hg.
Qed.

Lemma handle_answer_effect game_id player_name answer s :
  effect game_id (closed s) s (handle_answer game_id player_name answer s).2.
Proof.
  destruct (dict_get game_id (games s)) as [g|] eqn:Hg.
  - destruct (current_question g) as [q|] eqn:Hq.
    + destruct (decide (answer = Some (meaning q))) as [->|Hne].
      * destruct (dict_get player_name (scores g)) as [v|] eqn:Hv.
        -- rewrite (handle_answer_run_correct _ _ g q v) by done. cbn [snd].
           eapply (effect_move _ _ _ _ (scored player_name v g));
             [reflexivity| |reflexivity|].
           ++ rewrite Hg. by apply (move_score _ _ _ q).
           ++ frames_ok.
        -- rewrite (handle_answer_run_unscored _ _ g q) by done. by apply effect_same.
      * rewrite (handle_answer_run_wrong _ _ _ g q) by done. cbn [snd].
        eapply (effect_frames _ _ _ _ g); [done|reflexivity|reflexivity|]. frames_ok.
    + rewrite (handle_answer_run_idle _ _ _ g) by done. by apply effect_same.
  - apply effect_unknown_game; [done|]. intros s0 Hg0.
    unfold handle_answer, get_game. mstep. by rewrite Hg0.
Qed.

Lemma effect_try_except {A} (m h : M A) game_id cl s :
  effect game_id cl s (m s).2 ->
  (forall s', (h s').2 = s') ->
  effect game_id cl s (try_except m h s).2.
Proof.
  intros Hm Hh. unfold try_except. destruct (m s) as [[a|] s']; [done|].
  cbn in *. by rewrite Hh.
Qed.

Lemma handle_message_join_run w answer game_id player_name g p s :
  dict_get game_id (games s) = Some g ->
  dict_get player_name (players g) = Some p ->
  handle_message w (Request (Some "join") answer) game_id player_name s =
  (Ret Done,
   with_outbox (outbox s ++ deliver (state_frame (readied player_name p g))
                  (recipients [] (closed s) (players (readied player_name p g))))
     (with_games (dict_set game_id (readied player_name p g) (games s)) s)).
Proof.
  intros Hg Hp. unfold handle_message, try_except. mstep. rewrite Hg.
  dispatch. rewrite Hp. mrun. reflexivity.
Qed.

Lemma handle_message_join_seatless w answer game_id player_name g s :
  dict_get game_id (games s) = Some g ->
  dict_get player_name (players g) = None ->
  handle_message w (Request (Some "join") answer) game_id player_name s = (Ret Done, s).
Proof.
  intros Hg Hp. unfold handle_message, try_except. mstep. rewrite Hg.
  dispatch. by rewrite Hp.
Qed.

Lemma handle_message_ignored w message game_id player_name s :
  match message with
  | Unparsable => True
  | Request action answer =>
      dict_get game_id (games s) = None \/
      (action <> Some "join" /\ action <> Some "start_game" /\
       action <> Some "submit_answer" /\ action <> Some "play_again")
  end ->
  handle_message w message game_id player_name s = (Ret Done, s).
Proof.
  unfold handle_message, try_except. destruct message as [|action answer]; [done|].
  mstep. intros [Hg|(H1 & H2 & H3 & H4)].
  - by rewrite Hg.
  - destruct (dict_get game_id (games s)); [|done].
    by rewrite !bool_decide_eq_false_2.
Qed.

Lemma handle_message_effect w message game_id player_name s :
  Inv s -> effect game_id (closed s) s (handle_message w message game_id player_name s).2.
Proof.
  intros HI. destruct message as [|action answer].
  { rewrite handle_message_ignored by done. by apply effect_same. }
  destruct (dict_get game_id (games s)) as [g|] eqn:Hg.
  2: { rewrite handle_message_ignored by (by left). by apply effect_same. }
  destruct (decide (action = Some "join")) as [->|Hj].
  { destruct (dict_get player_name (players g)) as [p|] eqn:Hp.
    - rewrite (handle_message_join_run _ _ _ _ g p) by done. cbn [snd].
      eapply (effect_move _ _ _ _ (readied player_name p g)); [reflexivity| |reflexivity|].
      + rewrite Hg. by apply move_ready.
      + frames_ok.
    - rewrite (handle_message_join_seatless _ _ _ _ g) by done. by apply effect_same. }
  destruct (decide (action = Some "start_game")) as [->|Hs].
  { rewrite (handle_message_start_run _ _ _ _ g) by done.
    case_bool_decide; [|by apply effect_same].
    apply effect_try_except; [|done]. rewrite bind_ret_snd. by apply start_game_effect. }
  destruct (decide (action = Some "submit_answer")) as [->|Ha].
  { rewrite (handle_message_submit_run _ _ _ _ g) by done.
    apply effect_try_except; [|done]. apply handle_answer_effect. }
  destruct (decide (action = Some "play_again")) as [->|Hp].
  { rewrite (handle_message_again_run _ _ _ _ g) by done.
    case_bool_decide; [|by apply effect_same].
    apply effect_try_except; [|done]. rewrite bind_ret_snd. apply reset_game_effect. }
  rewrite handle_message_ignored by (by right). by apply effect_same.
Qed.

Lemma resume_effect k s :
  effect (match k with KTimeout g | KAdvance g => g end) (closed s) s (resume k s).2.
Proof.
  destruct k as [game_id|game_id]; cbn [resume].
  - apply question_timeout_effect.
  - rewrite bind_ret_snd. apply next_question_effect.
Qed.

Lemma handle_disconnect_effect w game_id player_name s :
  Inv s ->
  dict_get w (connections s) = Some (game_id, player_name) ->
  effect game_id (closed s) s (handle_disconnect w s).2.
Proof.
  intros HI Hw. destruct (inv_conn _ HI _ _ _ Hw) as [g Hg].
  pose proof (inv_game _ HI _ _ Hg) as Hok.
  destruct (dict_mem player_name (players g)) eqn:Hp.
  - assert (dict_mem player_name (scores g) = true) as Hs.
    { rewrite <- Hp. symmetry. apply dict_mem_keys, Hok. }
    rewrite (handle_disconnect_run _ _ _ g) by done. cbn [snd].
    eapply (effect_move _ _ _ _ (left_game player_name g)); [reflexivity| |reflexivity|].
    + rewrite Hg. by apply move_leave.
    + frames_ok.
  - rewrite (handle_disconnect_run_absent _ game_id player_name) by (by rewrite ?Hg).
    by apply effect_same.
Qed.

Lemma accept_effect w path game_id s :
  4 <= length (split_slash path) ->
  split_slash path !! 2 = Some game_id ->
  effect game_id (closed s) s (accept w path s).2.
Proof.
  intros Hlen H2.
  destruct (lookup_lt_is_Some_2 (split_slash path) 3) as [player_name H3]; [lia|].
  rewrite (accept_run _ _ game_id player_name) by done. cbn [snd].
  eapply (effect_move _ _ _ _
            (joined w player_name
               (default (new_game player_name) (dict_get game_id (games s)))));
    [reflexivity| |reflexivity|].
  - destruct (dict_get game_id (games s)) as [g|]; cbn.
    + apply move_join.
    + by exists w, player_name.
  - frames_ok.
Qed.

(** Every step of the event loop: an event about a session has an
    [effect] on it; any other event leaves games and outbox alone. *)
Lemma step_effect e s s' :
  Inv s -> step e s = Some s' ->
  match event_game e s with
  | Some game_id => effect game_id (closed s) s s'
  | None => games s' = games s /\ outbox s' = outbox s
  end.
Proof.
  intros HI. destruct e as [w path|w message|w|w|i|]; cbn [step event_game].
  - destruct (dict_mem w (connections s)) eqn:Hw; [done|].
    destruct (bool_decide (w ∈ closed s)); [done|]. cbn [orb].
    intros [= <-]. case_bool_decide as Hlen.
    + rewrite accept_run_short by done.
      rewrite handle_disconnect_run_unknown; [done|].
      cbn. unfold dict_mem in Hw. by destruct (dict_get w (connections s)).
    + destruct (lookup_lt_is_Some_2 (split_slash path) 2) as [game_id H2]; [lia|].
      rewrite H2. apply accept_effect; [lia|done].
  - destruct (dict_get w (connections s)) as [[game_id player_name]|]; [|done].
    destruct (handler_asleep w s); [done|].
    pose proof (handle_message_effect w message game_id player_name s HI) as He.
    destruct (handle_message w message game_id player_name s) as [r s1].
    intros [= <-]. cbn. by apply effect_park.
  - destruct (_ && _); [|done]. by intros [= <-].
  - destruct (dict_get w (connections s)) as [[game_id player_name]|] eqn:Hw.
    + destruct (_ && _); [|done]. intros [= <-]. cbn.
      by apply (handle_disconnect_effect _ _ player_name).
    + unfold dict_mem. by rewrite Hw.
  - destruct (sleeping s !! i) as [sl|]; [|done].
    destruct (bool_decide _); [|done].
    pose proof (resume_effect (cont sl) (with_sleeping (delete i (sleeping s)) s)) as He.
    destruct (resume _ _) as [r s1].
    intros [= <-]. apply effect_park. revert He. by apply effect_pre.
  - destruct (forallb _ _); [|done]. by intros [= <-].
Qed.

Lemma step_game_cases e s s' game_id g' :
  Inv s -> step e s = Some s' ->
  dict_get game_id (games s') = Some g' ->
  dict_get game_id (games s) = Some g' \/
  (exists g, dict_get game_id (games s) = Some g /\ game_move g g') \/
  (dict_get game_id (games s) = None /\ exists w n, g' = joined w n (new_game n)).
Proof.
  intros HI Hstep Hg'. pose proof (step_effect _ _ _ HI Hstep) as He.
  destruct (event_game e s) as [gid0|].
  - destruct He as [_ [Hsame|(g0 & Hset & Hmove)]].
    + left. by rewrite <- Hsame.
    + rewrite Hset, dict_get_set in Hg'.
      destruct (decide (gid0 = game_id)) as [->|Hne]; [|by left].
      injection Hg' as ->.
      destruct (dict_get game_id (games s)) as [g|]; [right; left; by exists g|].
      right; right. done.
  - destruct He as [Hsame _]. left. by rewrite <- Hsame.
Qed.

Lemma game_move_host g g' :
  game_move g g' -> host g' = host g /\ questions g' = questions g.
Proof. by intros []. Qed.

(** A property of game objects that a fresh session has and that every
    move keeps holds in every session of every reachable state. *)
Lemma session_invariant (P : Game -> Prop) :
  (forall w n, P (joined w n (new_game n))) ->
  (forall g g', P g -> game_move g g' -> P g') ->
  forall s, reachable s ->
  forall game_id g, dict_get game_id (games s) = Some g -> P g.
Proof.
  intros Hnew Hmove s Hr. induction Hr as [r|s e s' Hr IH Hstep]; [done|].
  intros game_id g' Hg'.
  destruct (step_game_cases _ _ _ _ _ (reachable_Inv _ Hr) Hstep Hg')
    as [Hsame|[(g & Hg & Hm)|(_ & w & n & ->)]].
  - by apply (IH game_id).
  - apply (Hmove g); [by apply (IH game_id)|done].
  - apply Hnew.
Qed.

(** ** Sessions do not interfere *)

(** X1: a step of the event loop stays in its session.  Frames are only
    appended to the outbox, each to a websocket that was open before the
    step and is the stored websocket of a player of the session the
    event is about; every other session keeps its game object and none
    of its players is sent anything. *)
Theorem step_stays_in_its_session e s s' :
  reachable s ->
  step e s = Some s' ->
  exists extra,
    outbox s' = outbox s ++ extra /\
    (forall f, f ∈ extra ->
       (f.1 ∉ closed s) /\
       exists game_id, event_game e s = Some game_id /\ seated f.1 game_id s') /\
    forall other,
      event_game e s <> Some other ->
      dict_get other (games s') = dict_get other (games s) /\
      forall f, f ∈ extra -> ~ seated f.1 other s'.
Proof.
  intros Hr Hstep. pose proof (reachable_Inv _ Hr) as HI.
  pose proof (Inv_step _ _ _ HI Hstep) as HI'.
  pose proof (step_effect _ _ _ HI Hstep) as He.
  destruct (event_game e s) as [gid0|].
  - destruct He as [(extra & Hout & Hfr) Hgames].
    exists extra. split; [done|]. split.
    + intros f Hin. destruct (Hfr f Hin) as [Hcl Hseat]. split; [done|]. by exists gid0.
    + intros other Hne. split.
      * destruct Hgames as [->|(g' & -> & _)]; [done|].
        apply dict_get_set_ne. congruence.
      * intros f Hin (g2 & n2 & p2 & Hg2 & Hp2 & Hw2).
        destruct (Hfr f Hin) as [_ (g1 & n1 & p1 & Hg1 & Hp1 & Hw1)].
        pose proof (inv_game _ HI' _ _ Hg1) as Hok1.
        pose proof (inv_game _ HI' _ _ Hg2) as Hok2.
        apply dict_elem_get in Hp1; [|apply Hok1].
        apply dict_elem_get in Hp2; [|apply Hok2].
        apply (ok_seat _ _ _ Hok1) in Hp1. apply (ok_seat _ _ _ Hok2) in Hp2.
        rewrite Hw1 in Hp1. rewrite Hw2 in Hp2. congruence.
  - destruct He as [Hgames Hout]. exists []. rewrite app_nil_r.
    split; [done|]. split; [by intros f ?%elem_of_nil|].
    intros other _. split; [by rewrite Hgames|by intros f ?%elem_of_nil].
Qed.

(** X2: one step, at most one move.  A step either leaves the games
    dictionary as it is, or replaces the game object of the session the
    event is about: by one of the eight moves when the session existed,
    by a new session with its first player when it did not. *)
Theorem one_step_one_move e s s' :
  reachable s ->
  step e s = Some s' ->
  games s' = games s \/
  exists game_id g',
    event_game e s = Some game_id /\
    games s' = dict_set game_id g' (games s) /\
    match dict_get game_id (games s) with
    | Some g => game_move g g'
    | None => exists w n, g' = joined w n (new_game n)
    end.
Proof.
  intros Hr Hstep.
  pose proof (step_effect _ _ _ (reachable_Inv _ Hr) Hstep) as He.
  destruct (event_game e s) as [gid0|].
  - destruct He as [_ [Hsame|(g' & Hset & Hmove)]]; [by left|].
    right. by exists gid0, g'.
  - left. apply He.
Qed.

(** ** What a session never loses *)

(** X3: sessions are never removed and never change host or question
    bank: along any run of the event loop a session that exists keeps
    existing, with the host name and the bank it was created with, also
    after its host and all its players have gone. *)
Theorem host_and_bank_never_change es s s' game_id g :
  reachable s ->
  run es s = Some s' ->
  dict_get game_id (games s) = Some g ->
  exists g', dict_get game_id (games s') = Some g' /\
             host g' = host g /\ questions g' = questions g.
Proof.
  revert s g. induction es as [|e es IH]; intros s g Hr; cbn [run].
  - intros [= <-] Hg. by exists g.
  - destruct (step e s) as [s1|] eqn:Hstep; [|done]. intros Hrun Hg.
    assert (exists g1, dict_get game_id (games s1) = Some g1 /\
                       host g1 = host g /\ questions g1 = questions g)
      as (g1 & Hg1 & Hh1 & Hq1).
    { pose proof (step_effect _ _ _ (reachable_Inv _ Hr) Hstep) as He.
      destruct (event_game e s) as [gid0|].
      - destruct He as [_ [Hsame|(g' & Hset & Hmove)]].
        + exists g. by rewrite Hsame.
        + rewrite Hset, dict_get_set.
          destruct (decide (gid0 = game_id)) as [->|Hne]; [|by exists g].
          rewrite Hg in Hmove. exists g'. split; [done|]. by apply game_move_host.
      - destruct He as [Hsame _]. exists g. by rewrite Hsame. }
    destruct (IH s1 g1 (reachable_step _ _ _ Hr Hstep) Hrun Hg1) as (g' & Hg' & Hh & Hq).
    exists g'. split; [done|]. split; congruence.
Qed.

(** ** Scores and the question index *)

(** X4: in every reachable state every score is a non-negative multiple
    of 10: scores are only ever set to 0 or raised by 10. *)
Theorem scores_are_multiples_of_ten s game_id g n v :
  reachable s ->
  dict_get game_id (games s) = Some g ->
  (n, v) ∈ scores g ->
  (0 <= v)%Z /\ (10 | v)%Z.
Proof.
  intros Hr Hg. revert n v.
  apply (session_invariant
           (fun g => forall n v, (n, v) ∈ scores g -> (0 <= v)%Z /\ (10 | v)%Z))
    with (s := s) (game_id := game_id); [| |done|done].
  - intros w n0 n v [= -> ->]%list_elem_of_singleton.
    split; [lia|apply Z.divide_0_r].
  - intros g0 g1 HP Hm n v. destruct Hm; cbn.
    + intros [[_ ->]|Hin]%dict_set_elem; [|by apply (HP n)].
      split; [lia|apply Z.divide_0_r].
    + intros Hin%dict_del_elem. by apply (HP n).
    + apply HP.
    + intros [->|Hin]%reset_scores_elem; [|by apply (HP n)].
      split; [lia|apply Z.divide_0_r].
    + intros [->|Hin]%reset_scores_elem; [|by apply (HP n)].
      split; [lia|apply Z.divide_0_r].
    + intros [[_ ->]|Hin]%dict_set_elem; [|by apply (HP n)].
      match goal with H : dict_get _ (scores g0) = Some _ |- _ =>
        apply dict_get_Some_elem, HP in H as [Hpos Hdiv] end.
      split; [lia|]. apply Z.divide_add_r; [done|apply Z.divide_refl].
    + apply HP.
    + apply HP.
Qed.

(** X5: in every reachable state the question index of a session is at
    most the length of its bank, and the current question, when there is
    one, is the bank item just before the index. *)
Theorem current_question_is_the_item_before_the_index s game_id g :
  reachable s ->
  dict_get game_id (games s) = Some g ->
  question_index g <= length (questions g) /\
  forall q, current_question g = Some q ->
            1 <= question_index g /\ questions g !! (question_index g - 1) = Some q.
Proof.
  intros Hr Hg.
  apply (session_invariant
           (fun g => question_index g <= length (questions g) /\
                     forall q, current_question g = Some q ->
                               1 <= question_index g /\
                               questions g !! (question_index g - 1) = Some q))
    with (s := s) (game_id := game_id); [| |done|done].
  - intros w n. cbn. split; [lia|done].
  - intros g0 g1 [Hle Hcur] Hm. destruct Hm; cbn; try done.
    + match goal with H : questions g0 !! 0 = Some _ |- _ =>
        pose proof (lookup_lt_Some _ _ _ H); split; [lia|];
        intros q' [= <-]; by split end.
    + split; [lia|done].
    + match goal with H : questions g0 !! question_index g0 = Some _ |- _ =>
        pose proof (lookup_lt_Some _ _ _ H); split; [lia|];
        intros q' [= <-]; split; [lia|];
        by replace (question_index g0 + 1 - 1) with (question_index g0) by lia end.
Qed.

(** ** Seats and the registry *)

(** X6: in every reachable state the stored websocket of every player is
    registered, under the player's session and name; so a websocket
    holds at most one seat, in one session. *)
Theorem every_seat_is_registered s game_id g n p :
  reachable s ->
  dict_get game_id (games s) = Some g ->
  dict_get n (players g) = Some p ->
  dict_get (websocket p) (connections s) = Some (game_id, n) /\
  forall game_id' g' n' p',
    dict_get game_id' (games s) = Some g' ->
    dict_get n' (players g') = Some p' ->
    websocket p' = websocket p ->
    game_id' = game_id /\ n' = n.
Proof.
  intros Hr Hg Hp. pose proof (reachable_Inv _ Hr) as HI.
  pose proof (ok_seat _ _ _ (inv_game _ HI _ _ Hg) _ _ Hp) as Hseat.
  split; [done|]. intros game_id' g' n' p' Hg' Hp' Hw.
  pose proof (ok_seat _ _ _ (inv_game _ HI _ _ Hg') _ _ Hp') as Hseat'.
  rewrite Hw, Hseat in Hseat'. by injection Hseat' as -> ->.
Qed.

(** ** The request path *)

Lemma split_slash_length path : length (split_slash path) = S (slashes path).
Proof.
  induction path as [|c path IH]; [done|]. cbn [split_slash slashes].
  destruct (decide (c = "/"%char)); cbn [length]; [by rewrite IH|].
  destruct (split_slash path) as [|h t]; [done|]. cbn [length] in *. done.
Qed.

Lemma split_slash_head path : split_slash path !! 0 = Some (before_slash path).
Proof.
  induction path as [|c path IH]; [done|]. cbn [split_slash before_slash].
  destruct (decide (c = "/"%char)); [done|].
  destruct (split_slash path) as [|h t]; cbn in *; [done|]. by injection IH as ->.
Qed.

Lemma before_slash_whole path : slashes path = 0 -> before_slash path = path.
Proof.
  induction path as [|c path IH]; [done|]. cbn [slashes before_slash].
  destruct (decide (c = "/"%char)); [done|]. intros H0. by rewrite IH.
Qed.

Lemma split_slash_append a b :
  slashes a = 0 ->
  split_slash (String.append a (String "/" b)) = a :: split_slash b.
Proof.
  induction a as [|c a IH].
  - intros _. change (split_slash (String "/" b) = "" :: split_slash b).
    cbn [split_slash]. by rewrite decide_True.
  - change (String.append (String c a) (String "/" b))
      with (String c (String.append a (String "/" b))).
    cbn [split_slash slashes].
    destruct (decide (c = "/"%char)); [done|]. intros H0. by rewrite IH.
Qed.

Lemma split_slash_ws_path game_id rest :
  slashes game_id = 0 ->
  split_slash (ws_path game_id rest) =
  "" :: "ws" :: game_id :: split_slash rest.
Proof.
  intros H0. unfold ws_path.
  change (String.append "/ws/" ?x) with
    (String.append "" (String "/" (String.append "ws" (String "/" x)))).
  rewrite (split_slash_append "") by done.
  rewrite (split_slash_append "ws") by done.
  change (String.append "/" rest) with (String "/" rest).
  by rewrite split_slash_append.
Qed.

(** X7: a request path with fewer than three slashes is turned away:
    the websocket is closed and that is all; no session is created,
    nothing is registered and nothing is sent. *)
Theorem short_path_is_turned_away w path s :
  slashes path < 3 ->
  dict_mem w (connections s) = false ->
  w ∉ closed s ->
  step (Connect w path) s = Some (with_closed (w :: closed s) s).
Proof.
  intros Hsl Hw Hopen. cbn [step]. rewrite Hw.
  rewrite bool_decide_eq_false_2 by done. cbn [orb].
  rewrite accept_run_short by (rewrite split_slash_length; lia).
  rewrite handle_disconnect_run_unknown; [done|].
  cbn. unfold dict_mem in Hw. by destruct (dict_get w (connections s)).
Qed.

(** X8: when [handle_connection] is handed the request path
    [/ws/<game_id>/<rest>] with a game id that has no slash, it
    registers the connection and seats a player under exactly that game
    id and under the text of [rest] before its first slash: all of
    [rest] when it has no slash, the empty name when it starts with one
    or is empty.  The new seat holds the websocket, is not ready and has
    score 0. *)
Theorem ws_path_seats_the_player w game_id rest s :
  slashes game_id = 0 ->
  dict_mem w (connections s) = false ->
  w ∉ closed s ->
  exists s' g',
    step (Connect w (ws_path game_id rest)) s = Some s' /\
    dict_get w (connections s') = Some (game_id, before_slash rest) /\
    dict_get game_id (games s') = Some g' /\
    dict_get (before_slash rest) (players g') = Some (mkPlayer w false) /\
    dict_get (before_slash rest) (scores g') = Some 0%Z /\
    (slashes rest = 0 -> before_slash rest = rest).
Proof.
  intros H0 Hw Hopen. cbn [step]. rewrite Hw.
  rewrite bool_decide_eq_false_2 by done. cbn [orb].
  pose proof (split_slash_ws_path game_id rest H0) as Hparts.
  pose proof (split_slash_length rest) as Hlen.
  pose proof (split_slash_head rest) as Hhead.
  rewrite (accept_run _ _ game_id (before_slash rest)).
  - eexists _, _. split; [reflexivity|]. cbn.
    split; [apply dict_get_set_eq|]. split; [apply dict_get_set_eq|].
    cbn. split; [apply dict_get_set_eq|]. split; [apply dict_get_set_eq|].
    apply before_slash_whole.
  - rewrite Hparts. cbn [length]. lia.
  - by rewrite Hparts.
  - by rewrite Hparts.
Qed.

(** X9: the first connection that names an unknown game id creates the
    session, in the lobby, with the question bank and no question, and
    makes its player the host and the only, not ready, player with score
    0; the session goes last in the games dictionary, the connection
    last in the registry, and the one frame sent is the game state to
    the new connection itself. *)
Theorem first_join_creates_the_session w path game_id player_name s :
  4 <= length (split_slash path) ->
  split_slash path !! 2 = Some game_id ->
  split_slash path !! 3 = Some player_name ->
  dict_get w (connections s) = None ->
  w ∉ closed s ->
  dict_get game_id (games s) = None ->
  exists s',
    step (Connect w path) s = Some s' /\
    games s' = games s ++ [(game_id,
                 mkGame [(player_name, mkPlayer w false)] lobby player_name None
                        [(player_name, 0%Z)] 0 load_questions)] /\
    connections s' = connections s ++ [(w, (game_id, player_name))] /\
    outbox s' = outbox s ++ [(w, MGameState [(player_name, false)]
                                   [(player_name, 0%Z)] lobby player_name)] /\
    closed s' = closed s /\ sleeping s' = sleeping s /\ now s' = now s.
Proof.
  intros Hlen H2 H3 Hw Hopen Hg. cbn [step]. unfold dict_mem. rewrite Hw.
  rewrite bool_decide_eq_false_2 by done. cbn [orb].
  rewrite (accept_run _ _ game_id player_name) by done. rewrite Hg.
  eexists. split; [reflexivity|]. cbn.
  rewrite !dict_set_fresh by done. split_and!; try done.
  rewrite decide_True; [done|].
  split; [apply not_elem_of_nil|done].
Qed.

(** ** Frames that are dropped *)

(** X10: a frame that does not parse, a frame without an action or with
    an action other than the four known ones, and any frame at all for a
    session that does not exist are dropped: the step leaves the whole
    server state as it was, the connection stays registered and nothing
    is sent. *)
Theorem unknown_frames_are_dropped w game_id player_name s :
  dict_get w (connections s) = Some (game_id, player_name) ->
  handler_asleep w s = false ->
  step (Receive w Unparsable) s = Some s /\
  (forall action answer,
     action <> Some "join" -> action <> Some "start_game" ->
     action <> Some "submit_answer" -> action <> Some "play_again" ->
     step (Receive w (Request action answer)) s = Some s) /\
  (dict_get game_id (games s) = None ->
   forall action answer, step (Receive w (Request action answer)) s = Some s).
Proof.
  intros Hw Hawake. split_and!.
  - cbn [step]. rewrite Hw, Hawake. by rewrite handle_message_ignored.
  - intros action answer H1 H2 H3 H4. cbn [step]. rewrite Hw, Hawake.
    rewrite handle_message_ignored; [done|]. by right.
  - intros Hg action answer. cbn [step]. rewrite Hw, Hawake.
    rewrite handle_message_ignored; [done|]. by left.
Qed.

(** ** The join action *)

(** X11: [join] marks the sender's name ready.  When the name has a
    seat, the seat keeps its stored websocket and its place in the
    roster, no other seat, no score and nothing else of the game
    changes, and every open player is sent the game state; for a name
    that is ready already the games dictionary is left as it is.  When
    the name has no seat the frame is dropped. *)
Theorem join_marks_the_name_ready w game_id player_name g answer s :
  dict_get w (connections s) = Some (game_id, player_name) ->
  handler_asleep w s = false ->
  dict_get game_id (games s) = Some g ->
  match dict_get player_name (players g) with
  | Some p =>
      exists s' g',
        step (Receive w (Request (Some "join") answer)) s = Some s' /\
        dict_get game_id (games s') = Some g' /\
        dict_get player_name (players g') = Some (mkPlayer (websocket p) true) /\
        (forall n, n <> player_name ->
                   dict_get n (players g') = dict_get n (players g)) /\
        dict_keys (players g') = dict_keys (players g) /\
        scores g' = scores g /\ state g' = state g /\ host g' = host g /\
        current_question g' = current_question g /\
        question_index g' = question_index g /\
        outbox s' = outbox s ++ deliver (state_frame g')
                                  (recipients [] (closed s) (players g')) /\
        sleeping s' = sleeping s /\
        (ready p = true -> games s' = games s)
  | None => step (Receive w (Request (Some "join") answer)) s = Some s
  end.
Proof.
  intros Hw Hawake Hg. cbn [step]. rewrite Hw, Hawake.
  destruct (dict_get player_name (players g)) as [p|] eqn:Hp.
  - rewrite (handle_message_join_run _ _ _ _ g p) by done.
    eexists _, _. split; [reflexivity|].
    split; [apply dict_get_set_eq|]. cbn. split_and!; try done.
    + apply dict_get_set_eq.
    + intros n Hn. by apply dict_get_set_ne.
    + apply dict_keys_set_present, dict_get_is_Some. by rewrite Hp.
    + intros Hready. destruct p as [pw pr]. cbn in Hready. subst pr. cbn.
      unfold readied, with_players. cbn.
      rewrite (dict_set_same player_name) by done.
      destruct g. cbn. by apply dict_set_same.
  - by rewrite (handle_message_join_seatless _ _ _ _ g).
Qed.

(** ** A timeout out of its round *)

(** X12: a question timeout that wakes when its session is not playing,
    has no current question or does not exist ends without a trace:
    nothing is sent, nothing is scheduled, no game object changes; the
    step only removes the sleeper. *)
Theorem timeout_outside_play_does_nothing i sl game_id s :
  sleeping s !! i = Some sl ->
  cont sl = KTimeout game_id ->
  due sl <= now s ->
  match dict_get game_id (games s) with
  | Some g => state g <> playing \/ current_question g = None
  | None => True
  end ->
  step (Wake i) s = Some (with_sleeping (delete i (sleeping s)) s).
Proof.
  intros Hi Hk Hdue Hstale. cbn [step]. rewrite Hi.
  rewrite bool_decide_eq_true_2 by done. rewrite Hk. cbn [resume].
  by rewrite question_timeout_run_stale.
Qed.

(** ** Advancing to the end *)

(** X13: advancing is bounded by the bank.  From any game, as many
    advances as there are bank items left, and one more, end with the
    session finished and the question index at the length of the bank
    (or where it was, if beyond); one timeout was scheduled per question
    shown, and players, scores, host and registry are as before. *)
Theorem advances_finish_the_game game_id g s :
  dict_get game_id (games s) = Some g ->
  exists s' g',
    advances (length (questions g) - question_index g + 1) game_id s = (Ret tt, s') /\
    dict_get game_id (games s') = Some g' /\
    state g' = finished /\
    question_index g' = max (question_index g) (length (questions g)) /\
    players g' = players g /\ scores g' = scores g /\ host g' = host g /\
    questions g' = questions g /\
    length (sleeping s') = length (sleeping s)
                           + (length (questions g) - question_index g) /\
    connections s' = connections s.
Proof.
  remember (length (questions g) - question_index g) as k eqn:Hk.
  revert s g Hk. induction k as [|k IH]; intros s g Hk Hg.
  - cbn [advances Nat.add]. rewrite bind_run.
    rewrite (next_question_run_end _ g), (end_game_run _ g) by (done || lia).
    eexists _, _. split; [reflexivity|].
    split; [apply dict_get_set_eq|]. cbn. split_and!; try done; lia.
  - destruct (lookup_lt_is_Some_2 (questions g) (question_index g)) as [q Hq]; [lia|].
    cbn [advances Nat.add]. rewrite bind_run.
    destruct (next_question_run _ _ _ _ Hg Hq) as (choices & r & Hp & ->).
    match goal with |- context [advances _ _ ?s1] =>
      destruct (IH s1 (advanced q g)) as (s' & g' & Hrun & Hg' & Hst & Hidx & Hrest)
    end.
    + cbn. lia.
    + apply dict_get_set_eq.
    + exists s', g'. split; [exact Hrun|]. split; [done|]. split; [done|].
      cbn in Hidx, Hrest. destruct Hrest as (-> & -> & -> & -> & Hsl & ->).
      split_and!; try done; [lia|].
      rewrite Hsl, length_app. cbn. lia.
Qed.

(** ** The choices of any bank item *)

(** X14: for any bank item, [next_question] sends the meaning together
    with at most three distractors: one choice more than the smaller of
    3 and the number of distractors, so fewer than four when the item
    has fewer than three distractors; the meaning is always among the
    choices and every choice is the meaning or one of the item's
    distractors. *)
Theorem choices_follow_the_distractors game_id g question s :
  dict_get game_id (games s) = Some g ->
  questions g !! question_index g = Some question ->
  exists choices s',
    next_question game_id s = (Ret tt, s') /\
    outbox s' = outbox s ++ deliver
                  (MNewQuestion (term question) choices 20 (question_index g + 1))
                  (recipients [] (closed s) (players g)) /\
    length choices = S (min 3 (length (distractors question))) /\
    meaning question ∈ choices /\
    choices ≡ₚ meaning question :: take 3 (distractors question) /\
    forall c, c ∈ choices -> c = meaning question \/ c ∈ distractors question.
Proof.
  intros Hg Hq.
  destruct (next_question_run _ _ _ _ Hg Hq) as (choices & r & Hp & ->).
  exists choices. eexists. split; [reflexivity|]. cbn. split_and!; try done.
  - rewrite Hp. cbn. by rewrite length_take.
  - rewrite Hp. left.
  - intros c. rewrite Hp. intros [->|Hin]%elem_of_cons; [by left|right].
    by apply (subseteq_take 3).
Qed.

(** ** An answer from a connection without a seat *)

(** X15: a connection whose player name has no score entry (its seat
    was deleted when another connection of the same name left) can still
    submit.  Its correct answer raises on the missing key and is dropped
    whole: no score, no frame, no advance.  Its wrong answer is treated
    like anybody's: every open player is told, and the advance is
    scheduled. *)
Theorem answers_without_a_seat w game_id player_name g q s :
  dict_get w (connections s) = Some (game_id, player_name) ->
  handler_asleep w s = false ->
  dict_get game_id (games s) = Some g ->
  current_question g = Some q ->
  dict_get player_name (scores g) = None ->
  step (Receive w (submit (meaning q))) s = Some s /\
  forall a, a <> meaning q ->
    step (Receive w (submit a)) s =
    Some (with_sleeping
            (sleeping s ++ [mkSleeper (now s + 3) (Some w) (KAdvance game_id)])
            (with_outbox
               (outbox s ++ deliver (MAnswerResult player_name false (meaning q))
                              (recipients [] (closed s) (players g))) s)).
Proof.
  intros Hw Hawake Hg Hq Hv. split.
  - cbn [step]. rewrite Hw, Hawake. unfold submit.
    rewrite (handle_message_submit_run _ _ _ _ g) by done. unfold try_except.
    by rewrite (handle_answer_run_unscored _ _ g q).
  - intros a Hne. cbn [step]. rewrite Hw, Hawake. unfold submit.
    rewrite (handle_message_submit_run _ _ _ _ g) by done. unfold try_except.
    rewrite (handle_answer_run_wrong _ _ _ g q); [done..|congruence].
Qed.

(** ** The client's scoreboard *)

Lemma insert_desc_Permutation x l : insert_desc x l ≡ₚ x :: l.
Proof.
  induction l as [|y l IH]; cbn; [done|].
  destruct (x.2 <? y.2)%Z; [|done]. rewrite IH. apply Permutation_swap.
Qed.

Lemma insert_desc_sorted x l :
  StronglySorted (fun a b => (b.2 <= a.2)%Z) l ->
  StronglySorted (fun a b => (b.2 <= a.2)%Z) (insert_desc x l).
Proof.
  induction 1 as [|y l Hs IH Hall]; cbn.
  - repeat constructor.
  - destruct (Z.ltb_spec x.2 y.2) as [Hlt|Hge].
    + constructor; [done|]. rewrite insert_desc_Permutation.
      constructor; [lia|done].
    + constructor; [by constructor|].
      constructor; [done|]. eapply Forall_impl; [exact Hall|].
      intros z Hz. cbn in *. lia.
Qed.

Lemma max_by_value_ge best items : (best.2 <= (max_by_value best items).2)%Z.
Proof.
  revert best. induction items as [|x items IH]; intros best; cbn; [lia|].
  destruct (Z.ltb_spec best.2 x.2); [|done]. specialize (IH x). lia.
Qed.

Lemma max_by_value_unfold x items :
  max_by_value x items =
  match py_max items with
  | None => x
  | Some y => if (x.2 <? y.2)%Z then y else x
  end.
Proof.
  revert x. induction items as [|a items IH]; intros x; [done|].
  cbn [max_by_value py_max].
  pose proof (max_by_value_ge a items) as Hge.
  destruct (Z.ltb_spec x.2 a.2) as [Hlt|Hle].
  - destruct (Z.ltb_spec x.2 (max_by_value a items).2); [done|lia].
  - rewrite (IH x), (IH a). destruct (py_max items) as [y|].
    + destruct (Z.ltb_spec a.2 y.2); [done|].
      destruct (Z.ltb_spec x.2 y.2); [lia|].
      destruct (Z.ltb_spec x.2 a.2); [lia|done].
    + destruct (Z.ltb_spec x.2 a.2); [lia|done].
Qed.

Lemma sorted_desc_cons x sc : sorted_desc (x :: sc) = insert_desc x (sorted_desc sc).
Proof. reflexivity. Qed.

(** X16: the scoreboard the client builds at game over lists the final
    scores in descending order, each entry once, and its first row is
    the very entry the server's [max] picked: the winner announced by
    the server tops the client's scoreboard, also when scores tie. *)
Theorem scoreboard_agrees_with_the_winner (sc : list (string * Z)) :
  sorted_desc sc ≡ₚ sc /\
  StronglySorted (fun a b => (b.2 <= a.2)%Z) (sorted_desc sc) /\
  head (sorted_desc sc) = py_max sc /\
  fst <$> head (sorted_desc sc) = winner_of sc.
Proof.
  assert (head (sorted_desc sc) = py_max sc) as Hhead.
  { induction sc as [|x sc IH]; [done|].
    cbn [py_max]. rewrite max_by_value_unfold, <- IH, sorted_desc_cons.
    destruct (sorted_desc sc) as [|y l]; cbn; [done|].
    by destruct (x.2 <? y.2)%Z. }
  split_and!.
  - clear Hhead. induction sc as [|x sc IH]; [done|].
    rewrite sorted_desc_cons. etrans; [apply insert_desc_Permutation|].
    by apply perm_skip.
  - clear Hhead. induction sc as [|x sc IH]; [constructor|].
    rewrite sorted_desc_cons. by apply insert_desc_sorted.
  - done.
  - rewrite Hhead. unfold winner_of. by destruct (py_max sc).
Qed.

(** ** Joining and leaving *)

Lemma left_joined w player_name g :
  dict_get player_name (players g) = None ->
  dict_get player_name (scores g) = None ->
  left_game player_name (joined w player_name g) = g.
Proof.
  intros Hp Hs. destruct g as [ps st h cq sc qi qs]. cbn in *.
  unfold left_game, joined, with_scores, with_players. cbn.
  by rewrite !dict_del_set_fresh.
Qed.

(** X17: a player who joins under a new name and leaves again leaves no
    trace in the session: after the connection is served, closes and its
    message loop ends, the games dictionary and the registry are what
    they were before (so are the sleepers and the clock); only the
    outbox has grown and the websocket is listed as closed.  If the join
    created the session, the session stays behind, empty, with the
    leaver as its host. *)
Theorem join_then_leave_restores_the_session w path game_id player_name s :
  reachable s ->
  4 <= length (split_slash path) ->
  split_slash path !! 2 = Some game_id ->
  split_slash path !! 3 = Some player_name ->
  dict_get w (connections s) = None ->
  w ∉ closed s ->
  handler_asleep w s = false ->
  match dict_get game_id (games s) with
  | Some g => dict_get player_name (players g) = None
  | None => True
  end ->
  exists s',
    run [Connect w path; Close w; LoopEnd w] s = Some s' /\
    games s' = match dict_get game_id (games s) with
               | Some _ => games s
               | None => games s ++ [(game_id, new_game player_name)]
               end /\
    connections s' = connections s /\
    sleeping s' = sleeping s /\ now s' = now s /\
    closed s' = w :: closed s.
Proof.
  intros Hr Hlen H2 H3 Hw Hopen Hawake Hnew.
  pose proof (reachable_Inv _ Hr) as HI.
  set (g0 := default (new_game player_name) (dict_get game_id (games s))).
  assert (dict_get player_name (players g0) = None /\
          dict_get player_name (scores g0) = None) as [Hp0 Hs0].
  { subst g0. destruct (dict_get game_id (games s)) as [g|] eqn:Hg; cbn; [|done].
    split; [done|]. apply dict_get_None. apply dict_get_None in Hnew.
    by rewrite <- (ok_keys _ _ _ (inv_game _ HI _ _ Hg)). }
  cbn [run].
  (* the connection is served *)
  assert (step (Connect w path) s = Some (accept w path s).2) as ->.
  { cbn [step]. unfold dict_mem. rewrite Hw.
    by rewrite bool_decide_eq_false_2. }
  rewrite (accept_run _ _ game_id player_name) by done. fold g0. cbn [snd].
  set (s1 := with_outbox _ _).
  (* the transport closes *)
  assert (step (Close w) s1 = Some (with_closed (w :: closed s) s1)) as ->.
  { cbn [step]. subst s1. cbn. unfold dict_mem. rewrite dict_get_set_eq.
    by rewrite bool_decide_eq_false_2. }
  set (s2 := with_closed _ s1).
  (* the message loop ends *)
  assert (step (LoopEnd w) s2 = Some (handle_disconnect w s2).2) as ->.
  { cbn [step]. subst s2 s1. cbn. unfold dict_mem. rewrite dict_get_set_eq.
    rewrite bool_decide_eq_true_2 by left.
    unfold handler_asleep in *. cbn. by rewrite Hawake. }
  rewrite (handle_disconnect_run w game_id player_name (joined w player_name g0)).
  - eexists. split; [reflexivity|]. subst s2 s1. cbn.
    rewrite dict_set_set, left_joined by done.
    rewrite dict_del_set_fresh by done. split_and!; try done.
    subst g0. destruct (dict_get game_id (games s)) as [g|] eqn:Hg; cbn.
    + by apply dict_set_same.
    + by apply dict_set_fresh.
  - subst s2 s1. cbn. apply dict_get_set_eq.
  - subst s2 s1. cbn. apply dict_get_set_eq.
  - unfold dict_mem, joined; cbn. by rewrite dict_get_set_eq.
  - unfold dict_mem, joined; cbn. by rewrite dict_get_set_eq.
Qed.

(** ** The statements at work *)

Lemma reachable_two_games : reachable two_games.
Proof.
  apply (reachable_after [Connect 1 "/ws/G/Alice"; Connect 2 "/ws/H/Bob";
                          Receive 1 (act "start_game")]).
  by vm_compute.
Qed.

Lemma reachable_alice_alone : reachable alice_alone.
Proof. apply (reachable_after [Connect 1 "/ws/G/Alice"]). by vm_compute. Qed.

Lemma reachable_round2 : reachable round2.
Proof.
  apply (reachable_after
           (opening ++ [Tick; Receive 2 (submit "friendly greeting; hey/what's up")]
            ++ ticks 3 ++ [Wake 1])).
  by vm_compute.
Qed.

Lemma step_stays_in_its_session_witness :
  reachable two_games /\
  step (Receive 1 (submit "nope")) two_games = Some two_games_next /\
  exists extra,
    outbox two_games_next = outbox two_games ++ extra /\
    (forall f, f ∈ extra ->
       (f.1 ∉ closed two_games) /\
       exists game_id,
         event_game (Receive 1 (submit "nope")) two_games = Some game_id /\
         seated f.1 game_id two_games_next) /\
    forall other,
      event_game (Receive 1 (submit "nope")) two_games <> Some other ->
      dict_get other (games two_games_next) = dict_get other (games two_games) /\
      forall f, f ∈ extra -> ~ seated f.1 other two_games_next.
Proof.
  split; [exact reachable_two_games|]. split; [reflexivity|].
  exact (step_stays_in_its_session (Receive 1 (submit "nope")) two_games two_games_next
           reachable_two_games eq_refl).
Defined.

Lemma one_step_one_move_witness :
  reachable round1 /\
  step (Receive 2 (submit "friendly greeting; hey/what's up")) round1
    = Some round1_scored /\
  (games round1_scored = games round1 \/
   exists game_id g',
     event_game (Receive 2 (submit "friendly greeting; hey/what's up")) round1
       = Some game_id /\
     games round1_scored = dict_set game_id g' (games round1) /\
     match dict_get game_id (games round1) with
     | Some g => game_move g g'
     | None => exists w n, g' = joined w n (new_game n)
     end).
Proof.
  split; [exact reachable_round1|]. split; [reflexivity|].
  exact (one_step_one_move (Receive 2 (submit "friendly greeting; hey/what's up"))
           round1 round1_scored reachable_round1 eq_refl).
Defined.

Lemma host_and_bank_never_change_witness :
  reachable alice_alone /\
  run host_leaves alice_alone = Some host_gone /\
  dict_keys (players (game_in "G" host_gone)) = ["Bob"] /\
  exists g', dict_get "G" (games host_gone) = Some g' /\
             host g' = host alice_alone_game /\
             questions g' = questions alice_alone_game.
Proof.
  split; [exact reachable_alice_alone|]. split; [reflexivity|]. split; [reflexivity|].
  exact (host_and_bank_never_change host_leaves alice_alone host_gone "G"
           alice_alone_game reachable_alice_alone eq_refl eq_refl).
Defined.

Lemma scores_are_multiples_of_ten_witness :
  reachable last_round /\
  ("Bob", 10%Z) ∈ scores last_round_game /\
  (0 <= 10)%Z /\ (10 | 10)%Z.
Proof.
  assert (("Bob", 10%Z) ∈ scores last_round_game) as Hin.
  { apply list_elem_of_lookup. by exists 1. }
  split; [exact reachable_last_round|]. split; [exact Hin|].
  exact (scores_are_multiples_of_ten last_round "ABC123" last_round_game "Bob" 10%Z
           reachable_last_round eq_refl Hin).
Defined.

Lemma current_question_is_the_item_before_the_index_witness :
  reachable round2 /\
  current_question round2_game = Some braai /\
  question_index round2_game <= length (questions round2_game) /\
  forall q, current_question round2_game = Some q ->
            1 <= question_index round2_game /\
            questions round2_game !! (question_index round2_game - 1) = Some q.
Proof.
  split; [exact reachable_round2|]. split; [reflexivity|].
  exact (current_question_is_the_item_before_the_index round2 "ABC123" round2_game
           reachable_round2 eq_refl).
Defined.

Lemma every_seat_is_registered_witness :
  reachable round1 /\
  dict_get "Bob" (players round1_game) = Some (mkPlayer 2 false) /\
  dict_get 2 (connections round1) = Some ("ABC123", "Bob") /\
  forall game_id' g' n' p',
    dict_get game_id' (games round1) = Some g' ->
    dict_get n' (players g') = Some p' ->
    websocket p' = 2 ->
    game_id' = "ABC123" /\ n' = "Bob".
Proof.
  split; [exact reachable_round1|]. split; [reflexivity|].
  exact (every_seat_is_registered round1 "ABC123" round1_game "Bob" (mkPlayer 2 false)
           reachable_round1 eq_refl eq_refl).
Defined.

Lemma short_path_is_turned_away_witness :
  slashes "/ws/ABC123" < 3 /\
  step (Connect 1 "/ws/ABC123") (empty_server [])
    = Some (with_closed [1] (empty_server [])).
Proof.
  assert (slashes "/ws/ABC123" < 3) as Hsl by (apply Nat.ltb_lt; reflexivity).
  split; [exact Hsl|].
  assert (1 ∉ closed (empty_server [])) as Hopen by apply not_elem_of_nil.
  exact (short_path_is_turned_away 1 "/ws/ABC123" (empty_server []) Hsl eq_refl Hopen).
Defined.

Lemma ws_path_seats_the_player_witness :
  slashes "ABC123" = 0 /\
  exists s' g',
    step (Connect 1 (ws_path "ABC123" "Al/ice")) (empty_server []) = Some s' /\
    dict_get 1 (connections s') = Some ("ABC123", "Al") /\
    dict_get "ABC123" (games s') = Some g' /\
    dict_get "Al" (players g') = Some (mkPlayer 1 false) /\
    dict_get "Al" (scores g') = Some 0%Z /\
    (slashes "Al/ice" = 0 -> before_slash "Al/ice" = "Al/ice").
Proof.
  split; [reflexivity|].
  assert (1 ∉ closed (empty_server [])) as Hopen by apply not_elem_of_nil.
  exact (ws_path_seats_the_player 1 "ABC123" "Al/ice" (empty_server [])
           eq_refl eq_refl Hopen).
Defined.

Lemma first_join_creates_the_session_witness :
  exists s',
    step (Connect 1 "/ws/ABC123/Alice") (empty_server []) = Some s' /\
    games s' = [("ABC123",
                 mkGame [("Alice", mkPlayer 1 false)] lobby "Alice" None
                        [("Alice", 0%Z)] 0 load_questions)] /\
    connections s' = [(1, ("ABC123", "Alice"))] /\
    outbox s' = [(1, MGameState [("Alice", false)] [("Alice", 0%Z)] lobby "Alice")] /\
    closed s' = [] /\ sleeping s' = [] /\ now s' = 0.
Proof.
  assert (1 ∉ closed (empty_server [])) as Hopen by apply not_elem_of_nil.
  exact (first_join_creates_the_session 1 "/ws/ABC123/Alice" "ABC123" "Alice"
           (empty_server []) (le_n 4) eq_refl eq_refl eq_refl Hopen eq_refl).
Defined.

Lemma unknown_frames_are_dropped_witness :
  step (Receive 1 Unparsable) round1 = Some round1 /\
  (forall action answer,
     action <> Some "join" -> action <> Some "start_game" ->
     action <> Some "submit_answer" -> action <> Some "play_again" ->
     step (Receive 1 (Request action answer)) round1 = Some round1) /\
  (dict_get "ABC123" (games round1) = None ->
   forall action answer, step (Receive 1 (Request action answer)) round1 = Some round1).
Proof.
  exact (unknown_frames_are_dropped 1 "ABC123" "Alice" round1 eq_refl eq_refl).
Defined.

Lemma join_marks_the_name_ready_witness :
  exists s' g',
    step (Receive 1 (Request (Some "join") None)) alice_alone = Some s' /\
    dict_get "G" (games s') = Some g' /\
    dict_get "Alice" (players g') = Some (mkPlayer 1 true) /\
    (forall n, n <> "Alice" ->
               dict_get n (players g') = dict_get n (players alice_alone_game)) /\
    dict_keys (players g') = dict_keys (players alice_alone_game) /\
    scores g' = scores alice_alone_game /\ state g' = state alice_alone_game /\
    host g' = host alice_alone_game /\
    current_question g' = current_question alice_alone_game /\
    question_index g' = question_index alice_alone_game /\
    outbox s' = outbox alice_alone
                ++ deliver (state_frame g')
                     (recipients [] (closed alice_alone) (players g')) /\
    sleeping s' = sleeping alice_alone /\
    (false = true -> games s' = games alice_alone).
Proof.
  exact (join_marks_the_name_ready 1 "G" "Alice" alice_alone_game None alice_alone
           eq_refl eq_refl eq_refl).
Defined.

Lemma timeout_outside_play_does_nothing_witness :
  round_view "ABC123" timeout_in_lobby = (20, lobby, 0, None) /\
  step (Wake 0) timeout_in_lobby
    = Some (with_sleeping (delete 0 (sleeping timeout_in_lobby)) timeout_in_lobby).
Proof.
  split; [reflexivity|].
  apply (timeout_outside_play_does_nothing 0 (mkSleeper 20 None (KTimeout "ABC123"))
           "ABC123" timeout_in_lobby eq_refl eq_refl (le_n 20)).
  cbn. left. discriminate.
Defined.

Lemma advances_finish_the_game_witness :
  dict_get "ABC123" (games round1) = Some round1_game /\
  exists s' g',
    advances (length (questions round1_game) - question_index round1_game + 1)
             "ABC123" round1 = (Ret tt, s') /\
    dict_get "ABC123" (games s') = Some g' /\
    state g' = finished /\
    question_index g' = max (question_index round1_game)
                            (length (questions round1_game)) /\
    players g' = players round1_game /\ scores g' = scores round1_game /\
    host g' = host round1_game /\ questions g' = questions round1_game /\
    length (sleeping s') = length (sleeping round1)
                           + (length (questions round1_game)
                              - question_index round1_game) /\
    connections s' = connections round1.
Proof.
  split; [reflexivity|].
  exact (advances_finish_the_game "ABC123" round1_game round1 eq_refl).
Defined.

Lemma choices_follow_the_distractors_witness :
  exists choices s',
    next_question "G" short_bank = (Ret tt, s') /\
    outbox s' = outbox short_bank
                ++ deliver (MNewQuestion "lekker" choices 20 1)
                     (recipients [] (closed short_bank) (players short_bank_game)) /\
    length choices = 2 /\
    "nice" ∈ choices /\
    choices ≡ₚ ["nice"; "nasty"] /\
    forall c, c ∈ choices -> c = "nice" \/ c ∈ ["nasty"].
Proof.
  exact (choices_follow_the_distractors "G" short_bank_game
           (mkQuizItem "lekker" "nice" ["nasty"] "easy") short_bank eq_refl eq_refl).
Defined.

Lemma answers_without_a_seat_witness :
  dict_get 3 (connections twin_seatless) = Some ("G", "Bob") /\
  dict_get "Bob" (scores twin_seatless_game) = None /\
  step (Receive 3 (submit "friendly greeting; hey/what's up")) twin_seatless
    = Some twin_seatless /\
  forall a, a <> "friendly greeting; hey/what's up" ->
    step (Receive 3 (submit a)) twin_seatless =
    Some (with_sleeping
            (sleeping twin_seatless ++ [mkSleeper 3 (Some 3) (KAdvance "G")])
            (with_outbox
               (outbox twin_seatless
                ++ deliver (MAnswerResult "Bob" false "friendly greeting; hey/what's up")
                     (recipients [] (closed twin_seatless) (players twin_seatless_game)))
               twin_seatless)).
Proof.
  split; [reflexivity|]. split; [reflexivity|].
  exact (answers_without_a_seat 3 "G" "Bob" twin_seatless_game awe twin_seatless
           eq_refl eq_refl eq_refl eq_refl eq_refl).
Defined.

Lemma join_then_leave_restores_the_session_witness :
  reachable alice_alone /\
  exists s',
    run [Connect 2 "/ws/G/Bob"; Close 2; LoopEnd 2] alice_alone = Some s' /\
    games s' = games alice_alone /\
    connections s' = connections alice_alone /\
    sleeping s' = sleeping alice_alone /\ now s' = now alice_alone /\
    closed s' = 2 :: closed alice_alone.
Proof.
  split; [exact reachable_alice_alone|].
  assert (2 ∉ closed alice_alone) as Hopen by apply not_elem_of_nil.
  exact (join_then_leave_restores_the_session 2 "/ws/G/Bob" "G" "Bob" alice_alone
           reachable_alice_alone (le_n 4) eq_refl eq_refl eq_refl Hopen eq_refl eq_refl).
Defined.
